(** * SteamGuess fetch pipeline: a shallow embedding and its properties

    The development follows the Python sources of the repository:

    - [scripts/fetch_common.py]: [RateLimiter], [http_get_json],
      [load_local_appids], [apply_index_range],
      [load_done_appids_from_jsonl], [normalize_date];
    - [scripts/fetch_games.py]: its own [http_get_json] with the module
      level limiters and [choose_limiter], [load_local_appids],
      [prune_store_payload] and [build_raw_record];
    - [scripts/fetch_store_raw.py]: [drop_blacklisted_fields],
      [fetch_store_meta], [build_store_record] and the loop of [main];
    - [scripts/fetch_steamspy_raw.py]: [fetch_spy_details],
      [build_spy_record] and the loop of [main];
    - [scripts/intersect_appids.py]: [load_appids] and [main];
    - [scripts/fetch_toplist.py]: [normalize_appids] and what [main]
      writes;
    - [scripts/filter_spy_appids.py]: [extract_appid], [extract_ccu] and
      the loops of [main].

    Conventions of the model.

    - A Python [str] is a [string]; one character of the model stands for
      one character of the Python string, so [String.length] is [len].
    - A Python [float] is a rational number of [Q]: every finite double is
      one, and the arithmetic of the model is exact.
    - A JSON document is a value of [json]; a Python [dict] is an
      association list in insertion order, written to with [dict_set].
      Python's [None] and JSON's [null] are the same value, [JNull].
    - Effects (the monotonic clock, [time.sleep], [random.random], the
      network, the limiter objects, the output file) live in a [World]
      that is threaded through a state and exception monad. *)

From Stdlib Require Import ZArith QArith Lqa Ascii String.
From Stdlib Require Import DecimalString DecimalZ DecimalPos.
From stdpp Require Import gmap strings list.

#[local] Set Warnings "-register-all,-clear-no-such-hyp".
Local Open Scope Z_scope.

(** ** JSON values as Python sees them *)

Inductive pyfloat : Type :=
| FFinite (q : Q)
| FInf (negative : bool)
| FNan.

Inductive json : Type :=
| JNull
| JBool (b : bool)
| JInt (z : Z)
| JFloat (f : pyfloat)
| JStr (s : string)
| JArr (items : list json)
| JObj (fields : list (string * json)).

Definition is_None (v : json) : bool :=
  match v with JNull => true | _ => false end.

(** [d[key] = v] on a dict kept in insertion order: an existing key keeps
    its position, a new key goes last. *)
Fixpoint dict_set (key : string) (v : json) (d : list (string * json))
  : list (string * json) :=
  match d with
  | [] => [(key, v)]
  | (k, old) :: rest =>
      if String.eqb k key then (k, v) :: rest
      else (k, old) :: dict_set key v rest
  end.

(** [d.get(key)]; [None] of Python is [JNull]. *)
Fixpoint dict_get (key : string) (d : list (string * json)) : json :=
  match d with
  | [] => JNull
  | (k, v) :: rest => if String.eqb k key then v else dict_get key rest
  end.

(** [key in d] *)
Fixpoint dict_has (key : string) (d : list (string * json)) : bool :=
  match d with
  | [] => false
  | (k, _) :: rest => String.eqb k key || dict_has key rest
  end.

(** [d.get(key, default)] *)
Definition dict_get_default (key : string) (default : json)
  (d : list (string * json)) : json :=
  if dict_has key d then dict_get key d else default.

(** The objects [json.loads] builds have pairwise distinct keys at every
    level. *)
Fixpoint json_wf (v : json) : bool :=
  match v with
  | JArr items => forallb json_wf items
  | JObj fields =>
      bool_decide (NoDup (map fst fields))
      && forallb (fun kv => json_wf (snd kv)) fields
  | _ => true
  end.

(** ** Python built-ins used by the scripts *)

Definition code (c : ascii) : nat := nat_of_ascii c.

(** Characters removed by [str.strip()]. *)
Definition is_space (c : ascii) : bool :=
  let n := code c in
  ((9 <=? n) && (n <=? 13) || (28 <=? n) && (n <=? 32)
   || (n =? 133) || (n =? 160))%nat.

Fixpoint lstrip (s : string) : string :=
  match s with
  | EmptyString => EmptyString
  | String c rest => if is_space c then lstrip rest else s
  end.

Fixpoint rstrip (s : string) : string :=
  match s with
  | EmptyString => EmptyString
  | String c rest =>
      match rstrip rest with
      | EmptyString => if is_space c then EmptyString else String c EmptyString
      | kept => String c kept
      end
  end.

Definition strip (s : string) : string := rstrip (lstrip s).

(** [str.lower()] *)
Definition lower_char (c : ascii) : ascii :=
  let n := code c in
  if ((65 <=? n) && (n <=? 90)
      || (192 <=? n) && (n <=? 222) && negb (n =? 215))%nat
  then ascii_of_nat (n + 32) else c.

Fixpoint lower (s : string) : string :=
  match s with
  | EmptyString => EmptyString
  | String c rest => String (lower_char c) (lower rest)
  end.

(** [needle in haystack] on strings *)
Fixpoint str_contains (needle haystack : string) : bool :=
  String.prefix needle haystack
  || match haystack with
     | EmptyString => false
     | String _ rest => str_contains needle rest
     end.

(** [str(n)] for an [int] *)
Definition str_int (z : Z) : string := NilZero.string_of_int (Z.to_int z).

Definition is_digit (c : ascii) : bool :=
  let n := code c in ((48 <=? n) && (n <=? 57))%nat.

Definition digit_value (c : ascii) : Z := Z.of_nat (code c - 48).

(** The digits of a decimal literal, most significant first; single
    underscores are allowed between digits, as in [int("1_000")]. *)
Fixpoint parse_digits (s : string) (acc : Z) (after_digit : bool) : option Z :=
  match s with
  | EmptyString => if after_digit then Some acc else None
  | String c rest =>
      if is_digit c then parse_digits rest (10 * acc + digit_value c) true
      else if Ascii.eqb c "_" && after_digit then parse_digits rest acc false
      else None
  end.

(** [int(s)] for a [str]: surrounding white space, an optional sign,
    decimal digits. [None] is [ValueError]. *)
Definition int_of_str (s : string) : option Z :=
  match strip s with
  | EmptyString => None
  | String c rest =>
      if Ascii.eqb c "-" then Z.opp <$> parse_digits rest 0 false
      else if Ascii.eqb c "+" then parse_digits rest 0 false
      else parse_digits (String c rest) 0 false
  end.

(** [int(item)] for a value out of a JSON document. [None] stands for the
    [TypeError], [ValueError] or [OverflowError] Python raises. *)
Definition py_int (item : json) : option Z :=
  match item with
  | JInt z => Some z
  | JBool b => Some (if b then 1 else 0)
  | JFloat (FFinite q) => Some (Z.quot (Qnum q) (Zpos (Qden q)))
  | JStr s => int_of_str s
  | _ => None
  end.

(** Truth value of a value in a condition *)
Definition truthy (v : json) : bool :=
  match v with
  | JNull => false
  | JBool b => b
  | JInt z => negb (z =? 0)
  | JFloat (FFinite q) => negb (Qeq_bool q 0)
  | JFloat _ => true
  | JStr s => negb (String.eqb s "")
  | JArr items => negb (bool_decide (items = []))
  | JObj fields => negb (bool_decide (fields = []))
  end.

(** [a or b] *)
Definition py_or (a b : json) : json := if truthy a then a else b.

Definition isinstance_dict (v : json) : bool :=
  match v with JObj _ => true | _ => false end.

Definition Qltb (x y : Q) : bool := negb (Qle_bool y x).

(** [max(a, b)]: the second argument only when it is strictly larger *)
Definition py_max (a b : Q) : Q := if Qltb a b then b else a.

(** ** Exceptions, the world and the monad of effects *)

Record url : Type := mkUrl {
  netloc : string;
  path : string;
  query : list (string * string);
}.

(** The exceptions ([Exception] subclasses) the scripts meet. The message
    of the [RuntimeError] of [http_get_json] is kept as its two
    parameters, the attempt bound and the url. *)
Inductive exn : Type :=
| HTTPError (code : Z)
| URLError
| RuntimeError_failed_after_retries (retries : Z) (u : url)
| ValueError (msg : string)
| FileNotFoundError
| JSONDecodeError
| UnicodeDecodeError
| OtherException (name : string).

Inductive Result (A : Type) : Type :=
| Ok (a : A)
| Raise (e : exn).
Arguments Ok {A} a.
Arguments Raise {A} e.

(** What one [urlopen(req, timeout=...)] followed by [resp.read()] does:
    a 2xx response with its body and what [json.loads] makes of it
    ([None] for [JSONDecodeError]), an [HTTPError] with its status, a
    [URLError], or another exception (a time-out while reading the body
    is not a [URLError]). *)
Inductive http_outcome : Type :=
| Response (body : string) (decoded : option json)
| RaisesHTTPError (code : Z)
| RaisesURLError
| RaisesOther (name : string).

(** What the environment decides, fixed for a run: the answer to the
    n-th request, the 53 random bits behind the n-th [random.random()],
    by how many nanoseconds the n-th blocking call overruns, and three
    library functions: [str()] on values other than [str], [int], [bool]
    and [None]; [datetime.strptime] tried over the candidate formats of
    [normalize_date] and printed back as [%Y-%m-%d] ([None] when no
    format fits); [datetime.fromtimestamp] printed as [%Y-%m-%d] ([None]
    when it raises). *)
Record Env : Type := mkEnv {
  env_server : nat -> url -> http_outcome;
  env_random : nat -> N;
  env_lag : nat -> N;
  env_repr : json -> string;
  env_strptime : string -> option string;
  env_fromtimestamp : Z -> option string;
}.

Record RateLimiter : Type := mkRateLimiter {
  min_interval : Q;
  _last_ts : Q;
}.

(** The [RateLimiter] objects of the scripts: the three module level ones
    of [fetch_games.py] and the one [main] of [fetch_store_raw.py]
    creates. *)
Inductive limiter_ref : Type :=
| store_limiter
| steamspy_limiter
| steamspy_all_limiter
| main_limiter.

#[global] Instance limiter_ref_eq_dec : EqDecision limiter_ref.
Proof. solve_decision. Defined.

(** A line of a JSON Lines file, by what the resume scan makes of it. *)
Inductive jsonl_line : Type :=
| LUndecodable          (* bytes that are not UTF-8 *)
| LBlank                (* [strip()] leaves nothing *)
| LInvalid              (* [json.loads] raises *)
| LJson (v : json).     (* [json.loads] returns [v] *)

(** The text file of the identifier list: bytes that are not UTF-8, text
    that is not JSON, or a JSON document. *)
Inductive document : Type :=
| DocUndecodable
| DocInvalid
| DocJson (data : json).

(** A file: the lines that end in a line separator, and what follows
    the last separator when the file does not end in one. *)
Record jsonl_file : Type := mkFile {
  complete : list jsonl_line;
  partial : option jsonl_line;
}.

Definition empty_file : jsonl_file := mkFile [] None.

Definition file_lines (f : jsonl_file) : list jsonl_line :=
  complete f ++ match partial f with Some l => [l] | None => [] end.

(** [handle.write(json.dumps(record) + "\n")] at the end of the file. Text
    left after the last separator becomes the head of the new line. *)
Definition append_record (record : json) (f : jsonl_file) : jsonl_file :=
  let line :=
    match partial f with
    | None | Some LBlank => LJson record
    | Some LUndecodable => LUndecodable
    | Some _ => LInvalid
    end in
  mkFile (complete f ++ [line]) None.

Record World : Type := mkWorld {
  clock : Q;                          (* [time.monotonic()] *)
  limiters : limiter_ref -> RateLimiter;
  slept : list Q;                     (* arguments of [time.sleep], in order *)
  requested : list url;               (* requests sent, in order *)
  draws : nat;                        (* calls of [random.random()] *)
  blocked : nat;                      (* blocking calls so far *)
  out_file : option jsonl_file;       (* the file at the output path *)
  skip_warnings : list nat;           (* "Skip invalid jsonl line" warnings *)
}.

Definition M (A : Type) : Type := World -> Result A * World.

Definition ret {A} (a : A) : M A := fun w => (Ok a, w).
Definition raise {A} (e : exn) : M A := fun w => (Raise e, w).
Definition bind {A B} (m : M A) (k : A -> M B) : M B :=
  fun w => match m w with
           | (Ok a, w') => k a w'
           | (Raise e, w') => (Raise e, w')
           end.
(** [try: body / except Exception as exc: handler] *)
Definition try_except {A} (body : M A) (handler : exn -> M A) : M A :=
  fun w => match body w with
           | (Ok a, w') => (Ok a, w')
           | (Raise e, w') => handler e w'
           end.

#[global] Instance M_ret : MRet M := @ret.
#[global] Instance M_bind : MBind M := fun A B k m => bind m k.

Definition ns (n : N) : Q := Z.of_N n # 1000000000.

(** The value of the n-th [random.random()]: a multiple of 2^-53 in
    [0, 1). *)
Definition random_value (env : Env) (n : nat) : Q :=
  Z.of_N (env_random env n mod 2 ^ 53) # 2 ^ 53.

Section Effects.
Variable env : Env.

Definition monotonic : M Q := fun w => (Ok (clock w), w).

(** [time.sleep(secs)]: at least [secs] go by; a negative argument is
    a [ValueError]. *)
Definition sleep (secs : Q) : M unit := fun w =>
  if Qltb secs 0 then (Raise (ValueError "sleep length must be non-negative"), w)
  else (Ok tt,
        mkWorld (clock w + secs + ns (env_lag env (blocked w)))
                (limiters w) (slept w ++ [secs]) (requested w) (draws w)
                (S (blocked w)) (out_file w) (skip_warnings w)).

Definition random : M Q := fun w =>
  (Ok (random_value env (draws w)),
   mkWorld (clock w) (limiters w) (slept w) (requested w) (S (draws w))
           (blocked w) (out_file w) (skip_warnings w)).

Definition urlopen (u : url) (timeout : Z) : M http_outcome := fun w =>
  (Ok (env_server env (length (requested w)) u),
   mkWorld (clock w + ns (env_lag env (blocked w)))
           (limiters w) (slept w) (requested w ++ [u]) (draws w)
           (S (blocked w)) (out_file w) (skip_warnings w)).

Definition get_limiter (self : limiter_ref) : M RateLimiter :=
  fun w => (Ok (limiters w self), w).

Definition set_limiter (self : limiter_ref) (l : RateLimiter) : M unit :=
  fun w =>
    (Ok tt,
     mkWorld (clock w)
             (fun r => if decide (r = self) then l else limiters w r)
             (slept w) (requested w) (draws w) (blocked w) (out_file w)
             (skip_warnings w)).

(** [RateLimiter.wait], the same in [fetch_common.py] and
    [fetch_games.py]. *)
Definition wait (self : limiter_ref) : M Q :=
  now ← monotonic;
  lim ← get_limiter self;
  let delta := (now - _last_ts lim)%Q in
  waited ← (if Qltb delta (min_interval lim)
            then let waited := (min_interval lim - delta)%Q in
                 sleep waited;; ret waited
            else ret 0%Q);
  ts ← monotonic;
  lim' ← get_limiter self;
  set_limiter self (mkRateLimiter (min_interval lim') ts);;
  ret waited.

End Effects.

Definition lift {A} (r : Result A) : M A := fun w => (r, w).

(** [str(v)] *)
Definition py_str (env : Env) (v : json) : string :=
  match v with
  | JStr s => s
  | JInt z => str_int z
  | JBool true => "True"
  | JBool false => "False"
  | JNull => "None"
  | _ => env_repr env v
  end.

(** [log_warn(f"Skip invalid jsonl line {line_no} in {path}")] *)
Definition log_warn_skip_invalid (line_no : nat) : M unit := fun w =>
  (Ok tt,
   mkWorld (clock w) (limiters w) (slept w) (requested w) (draws w)
           (blocked w) (out_file w) (skip_warnings w ++ [line_no])).


(** ** [scripts/fetch_common.py] *)

Module FetchCommon.
Section WithEnv.
Variable env : Env.

(** The loop of [http_get_json]: [remaining] attempts are left of the
    [range(retries)], [backoff] is the local variable. *)
Fixpoint http_get_json_loop (u : url) (limiter : limiter_ref) (retries : Z)
  (timeout : Z) (remaining : nat) (backoff : Q) : M json :=
  match remaining with
  | O => raise (RuntimeError_failed_after_retries retries u)
  | S remaining' =>
      waited ← wait env limiter;
      outcome ← urlopen env u timeout;
      match outcome with
      | Response body (Some payload) => ret payload
      | Response body None =>
          r ← random env;
          let sleep_for := (backoff + r * (1 # 2))%Q in
          sleep_for ← (if str_contains "Too many connections" body
                       then r2 ← random env;
                            ret (py_max sleep_for (60 + r2 * 2)%Q)
                       else ret sleep_for);
          sleep env sleep_for;;
          http_get_json_loop u limiter retries timeout remaining'
            (backoff * 2)%Q
      | RaisesHTTPError code =>
          if bool_decide (code ∈ [429; 500; 502; 503; 504])
          then
            r ← random env;
            let sleep_for := (backoff + r * (1 # 2))%Q in
            sleep env sleep_for;;
            http_get_json_loop u limiter retries timeout remaining'
              (backoff * 2)%Q
          else raise (HTTPError code)
      | RaisesURLError =>
          r ← random env;
          let sleep_for := (backoff + r * (1 # 2))%Q in
          sleep env sleep_for;;
          http_get_json_loop u limiter retries timeout remaining'
            (backoff * 2)%Q
      | RaisesOther name => raise (OtherException name)
      end
  end.

Definition http_get_json (u : url) (limiter : limiter_ref) (retries : Z)
  (timeout : Z) : M json :=
  http_get_json_loop u limiter retries timeout (Z.to_nat retries) 1%Q.

Definition load_local_appids (file : option document) : Result (list Z) :=
  match file with
  | None => Raise FileNotFoundError
  | Some DocUndecodable => Raise UnicodeDecodeError
  | Some DocInvalid => Raise JSONDecodeError
  | Some (DocJson data) =>
      let source :=
        match data with
        | JObj fields =>
            match dict_get "appids" fields with
            | JArr items => Some items
            | _ => None
            end
        | JArr items => Some items
        | _ => None
        end in
      match source with
      | None =>
          Raise (ValueError
                   "appid list file must be {'appids': [...]} or a plain list")
      | Some source =>
          Ok (fold_left
                (fun appids item =>
                   match py_int item with
                   | Some n => appids ++ [n]
                   | None => appids
                   end)
                source [])
      end
  end.

Definition apply_index_range (appids : list Z)
  (start_index end_index top_n : Z) : Result (list Z) :=
  if start_index <? 0 then Raise (ValueError "start-index must be >= 0")
  else if negb (end_index =? -1) && (end_index <? start_index)
  then Raise (ValueError "end-index must be -1 or >= start-index")
  else if top_n <? 0 then Raise (ValueError "top-n must be >= 0")
  else
    let sliced :=
      if end_index =? -1 then drop (Z.to_nat start_index) appids
      else drop (Z.to_nat start_index) (take (Z.to_nat end_index) appids) in
    Ok (if 0 <? top_n then take (Z.to_nat top_n) sliced else sliced).

(** The loop of [load_done_appids_from_jsonl] over the lines the handle
    yields; decoding is strict, and it is the iteration that decodes. *)
Fixpoint scan_lines (lines : list jsonl_line) (line_no : nat)
  (done : gset Z) : M (gset Z) :=
  match lines with
  | [] => ret done
  | LUndecodable :: _ => raise UnicodeDecodeError
  | LBlank :: rest => scan_lines rest (S line_no) done
  | LInvalid :: rest =>
      log_warn_skip_invalid line_no;;
      scan_lines rest (S line_no) done
  | LJson obj :: rest =>
      match obj with
      | JObj [(key, _)] =>
          match int_of_str key with
          | Some appid => scan_lines rest (S line_no) ({[appid]} ∪ done)
          | None =>
              log_warn_skip_invalid line_no;;
              scan_lines rest (S line_no) done
          end
      | _ => scan_lines rest (S line_no) done
      end
  end.

Definition load_done_appids_from_jsonl : M (gset Z) := fun w =>
  match out_file w with
  | None => (Ok ∅, w)
  | Some f => scan_lines (file_lines f) 1 ∅ w
  end.

Definition normalize_date (date_text : json) : Result string :=
  let from_number (positive : bool) (seconds : option Z) : Result string :=
    if negb positive then Ok ""
    else match seconds with
         | None => Raise (OtherException "int() of a float that is not finite")
         | Some n =>
             match env_fromtimestamp env n with
             | Some text => Ok text
             | None => Raise (OtherException "fromtimestamp")
             end
         end in
  let from_text (text : string) : Result string :=
    let raw := strip text in
    if String.eqb raw "" then Ok ""
    else if bool_decide
              (lower raw ∈ ["coming soon"; "to be announced"; "tba"; "soon"])
    then Ok ""
    else match env_strptime env raw with
         | Some text => Ok text
         | None => Ok raw
         end in
  match date_text with
  | JNull => Ok ""
  | JBool b => from_number b (Some (if b then 1 else 0))
  | JInt z => from_number (0 <? z) (Some z)
  | JFloat (FFinite q) =>
      from_number (Qltb 0 q) (Some (Z.quot (Qnum q) (Zpos (Qden q))))
  | JFloat (FInf negative) => from_number (negb negative) None
  | JFloat FNan => from_number true None
  | _ => from_text (py_str env date_text)
  end.

End WithEnv.
End FetchCommon.

(** ** The fetch loop shared by the [main] of [fetch_store_raw.py] and of
    [fetch_steamspy_raw.py] *)

Record Counts : Type := mkCounts {
  ok_count : nat;
  skip_count : nat;
  err_count : nat;
}.

Inductive write_mode : Type := mode_a | mode_w.

(** [out_path.open(write_mode, encoding="utf-8")] *)
Definition open_out (mode : write_mode) : M unit := fun w =>
  let f := match mode, out_file w with
           | mode_a, Some f => f
           | _, _ => empty_file
           end in
  (Ok tt,
   mkWorld (clock w) (limiters w) (slept w) (requested w) (draws w)
           (blocked w) (Some f) (skip_warnings w)).

(** [handle.write(json.dumps(record, ensure_ascii=False) + "\n")] *)
Definition write_record (record : json) : M unit := fun w =>
  let f := match out_file w with Some f => f | None => empty_file end in
  (Ok tt,
   mkWorld (clock w) (limiters w) (slept w) (requested w) (draws w)
           (blocked w) (Some (append_record record f)) (skip_warnings w)).

(** [for appid in track(appids, ...)] with its [try] / [except Exception];
    [build] is [build_store_record] or [build_spy_record] applied to the
    arguments of the run. *)
Fixpoint fetch_loop (build : Z -> M json) (appids : list Z) (c : Counts)
  : M Counts :=
  match appids with
  | [] => ret c
  | appid :: rest =>
      c' ← try_except
             (record ← build appid;
              if is_None record
              then ret (mkCounts (ok_count c) (S (skip_count c)) (err_count c))
              else (write_record record;;
                    ret (mkCounts (S (ok_count c)) (skip_count c)
                           (err_count c))))
             (fun exc =>
                ret (mkCounts (ok_count c) (skip_count c) (S (err_count c))));
      fetch_loop build rest c'
  end.

(** The command line and the content of the file at [--appid-list]. *)
Record Args : Type := mkArgs {
  appid_list : option document;
  start_index : Z;
  end_index : Z;
  top_n : Z;
  store_cc : string;
  interval : Q;
  max_retries : Z;
  timeout : Z;
  resume : bool;
}.

(** [appids = [appid for appid in appids if appid not in done_appids]]
    under [if args.resume] and [if done_appids]. *)
Definition resume_pending (resume : bool) (done_appids : gset Z)
  (appids : list Z) : list Z :=
  if resume && negb (bool_decide (done_appids = ∅))
  then filter (fun appid => appid ∉ done_appids) appids
  else appids.

Definition mode_of (resume : bool) : write_mode :=
  if resume then mode_a else mode_w.

(** The body of [main] after [parse_args]. *)
Definition fetch_main (env : Env) (build : Z -> M json) (args : Args)
  : M Counts :=
  (if Qle_bool (interval args) 0
   then raise (ValueError "interval must be > 0") else ret tt);;
  (if max_retries args <=? 0
   then raise (ValueError "max-retries must be > 0") else ret tt);;
  (if timeout args <=? 0
   then raise (ValueError "timeout must be > 0") else ret tt);;
  set_limiter main_limiter (mkRateLimiter (interval args) 0);;
  all_appids ← lift (FetchCommon.load_local_appids (appid_list args));
  appids ← lift (FetchCommon.apply_index_range all_appids (start_index args)
                   (end_index args) (top_n args));
  done_appids ← (if resume args then FetchCommon.load_done_appids_from_jsonl
                 else ret ∅);
  let appids := resume_pending (resume args) done_appids appids in
  open_out (mode_of (resume args));;
  fetch_loop build appids (mkCounts 0 0 0).

(** ** [scripts/fetch_store_raw.py] *)

Module FetchStoreRaw.

Definition FIELD_BLACKLIST : gset string :=
  {[ "data.detailed_description"; "data.about_the_game";
     "data.short_description"; "data.extended_description";
     "data.legal_notice" ]}.

Fixpoint drop_blacklisted_fields (value : json) (blacklist : gset string)
  (path_parts : list string) {struct value} : json :=
  let current_path := String.concat "." path_parts in
  if bool_decide (current_path ≠ "") && bool_decide (current_path ∈ blacklist)
  then JNull
  else
    match value with
    | JObj fields =>
        JObj (fold_left
                (fun out kv =>
                   let child_value :=
                     drop_blacklisted_fields (snd kv) blacklist
                       (path_parts ++ [fst kv]) in
                   if is_None child_value then out
                   else dict_set (fst kv) child_value out)
                fields [])
    | JArr items =>
        JArr (fold_left
                (fun out_list child =>
                   let child_value :=
                     drop_blacklisted_fields child blacklist path_parts in
                   if is_None child_value then out_list
                   else out_list ++ [child_value])
                items [])
    | _ => value
    end.

Section WithEnv.
Variable env : Env.

Definition fetch_store_meta (appid : Z) (cc : string) (limiter : limiter_ref)
  (retries : Z) (timeout : Z) : M json :=
  let u := mkUrl "store.steampowered.com" "/api/appdetails"
             [("appids", str_int appid); ("cc", cc); ("l", "english")] in
  payload ← FetchCommon.http_get_json env u limiter retries timeout;
  ret (if isinstance_dict payload then payload else JObj []).

Definition build_store_record (appid : Z) (cc : string)
  (limiter : limiter_ref) (retries : Z) (timeout : Z) : M json :=
  store_all ← fetch_store_meta appid cc limiter retries timeout;
  let store_one :=
    match store_all with
    | JObj fields => dict_get_default (str_int appid) (JObj []) fields
    | _ => JObj []
    end in
  match store_one with
  | JObj one_fields =>
      if negb (truthy (dict_get "success" one_fields)) then ret JNull
      else
        let payload := drop_blacklisted_fields store_one FIELD_BLACKLIST [] in
        let data :=
          match payload with
          | JObj fields => dict_get_default "data" (JObj []) fields
          | _ => JObj []
          end in
        let name :=
          match data with
          | JObj fields => py_str env (py_or (dict_get "name" fields) (JStr ""))
          | _ => ""
          end in
        let release_raw :=
          match data with
          | JObj fields =>
              match dict_get "release_date" fields with
              | JObj release =>
                  py_str env (py_or (dict_get "date" release) (JStr ""))
              | JNull => ""
              | release => py_str env release
              end
          | _ => ""
          end in
        release_date ← lift (FetchCommon.normalize_date env (JStr release_raw));
        ret (JObj [(str_int appid,
                    JObj [("appId", JInt appid);
                          ("name", JStr name);
                          ("releaseDate", JStr release_date);
                          ("payload", payload)])])
  | _ => ret JNull
  end.

Definition main (args : Args) : M Counts :=
  fetch_main env
    (fun appid =>
       build_store_record appid (store_cc args) main_limiter
         (max_retries args) (timeout args))
    args.

End WithEnv.
End FetchStoreRaw.

(** ** [scripts/fetch_steamspy_raw.py] *)

Module FetchSteamspyRaw.
Section WithEnv.
Variable env : Env.

Definition fetch_spy_details (appid : Z) (limiter : limiter_ref)
  (retries : Z) (timeout : Z) : M json :=
  let u := mkUrl "steamspy.com" "/api.php"
             [("request", "appdetails"); ("appid", str_int appid)] in
  payload ← FetchCommon.http_get_json env u limiter retries timeout;
  ret (if isinstance_dict payload then payload else JObj []).

Definition build_spy_record (appid : Z) (limiter : limiter_ref)
  (retries : Z) (timeout : Z) : M json :=
  payload ← fetch_spy_details appid limiter retries timeout;
  match payload with
  | JObj fields =>
      if negb (truthy payload) then ret JNull
      else
        let name := py_str env (py_or (dict_get "name" fields) (JStr "")) in
        let release_raw := dict_get "release_date" fields in
        release_date ← lift (FetchCommon.normalize_date env release_raw);
        ret (JObj [(str_int appid,
                    JObj [("appId", JInt appid);
                          ("name", JStr name);
                          ("releaseDate", JStr release_date);
                          ("payload", payload)])])
  | _ => ret JNull
  end.

Definition main (args : Args) : M Counts :=
  fetch_main env
    (fun appid =>
       build_spy_record appid main_limiter (max_retries args) (timeout args))
    args.

End WithEnv.
End FetchSteamspyRaw.

(** ** [scripts/fetch_games.py] *)

Module FetchGames.

Definition MAX_STORE_STRING_LENGTH : nat := 600.
Definition MAX_STORE_LIST_LENGTH : nat := 200.

Fixpoint prune_store_payload (value : json) : json :=
  match value with
  | JObj fields =>
      JObj (fold_left
              (fun pruned kv =>
                 let cleaned := prune_store_payload (snd kv) in
                 if is_None cleaned then pruned
                 else dict_set (fst kv) cleaned pruned)
              fields [])
  | JArr items =>
      if (MAX_STORE_LIST_LENGTH <? length items)%nat then JNull
      else
        JArr (fold_left
                (fun out item =>
                   let cleaned := prune_store_payload item in
                   if is_None cleaned then out else out ++ [cleaned])
                items [])
  | JStr s =>
      if (MAX_STORE_STRING_LENGTH <? String.length s)%nat then JNull
      else value
  | _ => value
  end.

(** [parse_qs(parsed.query).get(key, [""])[0]]: the first value given
    for [key] that is not blank. *)
Definition first_query_value (key : string) (q : list (string * string))
  : string :=
  match filter (fun kv => fst kv = key ∧ snd kv ≠ "") q with
  | kv :: _ => snd kv
  | [] => ""
  end.

Definition choose_limiter (u : url) : limiter_ref :=
  let host := lower (netloc u) in
  if str_contains "steamspy.com" host then
    let request_param := lower (first_query_value "request" (query u)) in
    if String.eqb request_param "all" then steamspy_all_limiter
    else steamspy_limiter
  else if str_contains "store.steampowered.com" host then store_limiter
  else steamspy_limiter.

Section WithEnv.
Variable env : Env.

(** The loop of [http_get_json]; [RETRY_LIMIT] is the module global. *)
Fixpoint http_get_json_loop (RETRY_LIMIT : Z) (u : url) (timeout : Z)
  (remaining : nat) (backoff : Q) : M json :=
  match remaining with
  | O => raise (RuntimeError_failed_after_retries RETRY_LIMIT u)
  | S remaining' =>
      let limiter := choose_limiter u in
      waited ← wait env limiter;
      outcome ← urlopen env u timeout;
      match outcome with
      | Response body (Some payload) => ret payload
      | Response body None =>
          r ← random env;
          let sleep_for := (backoff + r * (1 # 2))%Q in
          sleep_for ← (if str_contains "Too many connections" body
                       then r2 ← random env;
                            ret (py_max sleep_for (5 + r2 * 2)%Q)
                       else ret sleep_for);
          sleep env sleep_for;;
          http_get_json_loop RETRY_LIMIT u timeout remaining' (backoff * 2)%Q
      | RaisesHTTPError code =>
          if bool_decide (code ∈ [429; 500; 502; 503; 504])
          then
            r ← random env;
            let sleep_for := (backoff + r * (1 # 2))%Q in
            sleep env sleep_for;;
            http_get_json_loop RETRY_LIMIT u timeout remaining'
              (backoff * 2)%Q
          else raise (HTTPError code)
      | RaisesURLError =>
          r ← random env;
          let sleep_for := (backoff + r * (1 # 2))%Q in
          sleep env sleep_for;;
          http_get_json_loop RETRY_LIMIT u timeout remaining' (backoff * 2)%Q
      | RaisesOther name => raise (OtherException name)
      end
  end.

Definition http_get_json (RETRY_LIMIT : Z) (u : url) (timeout : Z) : M json :=
  http_get_json_loop RETRY_LIMIT u timeout (Z.to_nat RETRY_LIMIT) 1%Q.

(** [load_local_appids(path, top_n)] of [fetch_games.py]. *)
Definition load_local_appids (file : option document) (top_n : Z)
  : Result (list Z) :=
  match file with
  | None => Raise FileNotFoundError
  | Some DocUndecodable => Raise UnicodeDecodeError
  | Some DocInvalid => Raise JSONDecodeError
  | Some (DocJson data) =>
      let source :=
        match data with
        | JObj fields =>
            match dict_get "appids" fields with
            | JArr items => Some items
            | _ => None
            end
        | JArr items => Some items
        | _ => None
        end in
      match source with
      | None =>
          Raise (ValueError
                   "appid list file must be {'appids': [...]} or a plain list")
      | Some source =>
          let appids :=
            fold_left
              (fun appids item =>
                 match py_int item with
                 | Some n => appids ++ [n]
                 | None => appids
                 end)
              source [] in
          Ok (if 0 <? top_n then take (Z.to_nat top_n) appids else appids)
      end
  end.

(** [fetch_store_meta] and [fetch_spy_details] of [fetch_games.py] call
    [http_get_json(url)], with its default time-out of 25 seconds, and
    return what it returns. *)
Definition fetch_store_meta (RETRY_LIMIT : Z) (appid : Z) (cc : string)
  : M json :=
  let u := mkUrl "store.steampowered.com" "/api/appdetails"
             [("appids", str_int appid); ("cc", cc); ("l", "english")] in
  http_get_json RETRY_LIMIT u 25.

Definition fetch_spy_details (RETRY_LIMIT : Z) (appid : Z) : M json :=
  let u := mkUrl "steamspy.com" "/api.php"
             [("request", "appdetails"); ("appid", str_int appid)] in
  http_get_json RETRY_LIMIT u 25.

Definition build_raw_record (RETRY_LIMIT : Z) (appid : Z) (cc : string)
  : M json :=
  store_all ← fetch_store_meta RETRY_LIMIT appid cc;
  let store_one :=
    match store_all with
    | JObj fields => dict_get_default (str_int appid) (JObj []) fields
    | _ => JObj []
    end in
  match store_one with
  | JObj one_fields =>
      if negb (truthy (dict_get "success" one_fields)) then ret JNull
      else
        let store_pruned := prune_store_payload store_one in
        spy_raw ← fetch_spy_details RETRY_LIMIT appid;
        ret (JObj [(str_int appid,
                    JObj [("from_store", store_pruned);
                          ("from_spy", spy_raw)])])
  | _ => ret JNull
  end.

End WithEnv.
End FetchGames.

(** ** [scripts/intersect_appids.py] *)

Module IntersectAppids.

(** The loop of [load_appids]: [out] and [seen] are the two local
    variables. *)
Definition load_appids_step (acc : list string * gset string) (item : json)
  : list string * gset string :=
  let (out, seen) := acc in
  match py_int item with
  | None => acc
  | Some n =>
      let appid := str_int n in
      if bool_decide (appid ∈ seen) then acc
      else (out ++ [appid], {[ appid ]} ∪ seen)
  end.

Definition load_appids (file : option document) : Result (list string) :=
  match file with
  | None => Raise FileNotFoundError
  | Some DocUndecodable => Raise UnicodeDecodeError
  | Some DocInvalid => Raise JSONDecodeError
  | Some (DocJson data) =>
      let source :=
        match data with
        | JObj fields =>
            match dict_get "appids" fields with
            | JArr items => Some items
            | _ => None
            end
        | JArr items => Some items
        | _ => None
        end in
      match source with
      | None => Raise (ValueError "Invalid appids JSON format")
      | Some source => Ok (fst (fold_left load_appids_step source ([], ∅)))
      end
  end.

(** [[load_appids(path) for path in input_paths]]: the first file that
    fails ends the run. *)
Fixpoint load_all (inputs : list (option document))
  : Result (list (list string)) :=
  match inputs with
  | [] => Ok []
  | file :: rest =>
      match load_appids file with
      | Raise e => Raise e
      | Ok appids =>
          match load_all rest with
          | Raise e => Raise e
          | Ok lists => Ok (appids :: lists)
          end
      end
  end.

(** [main] up to the document it writes, [{"appids": [...]}]. *)
Definition main (inputs : list (option document)) : Result json :=
  if (length inputs <? 2)%nat
  then Raise (ValueError "Please provide at least 2 input files")
  else
    match load_all inputs with
    | Raise e => Raise e
    | Ok loaded_lists =>
        let first_list := hd [] loaded_lists in
        let intersection_set : gset string :=
          fold_left (fun acc appid_list => acc ∩ list_to_set appid_list)
            (tl loaded_lists) (list_to_set first_list) in
        let intersection_ordered :=
          filter (fun appid => appid ∈ intersection_set) first_list in
        Ok (JObj [("appids", JArr (map JStr intersection_ordered))])
    end.

End IntersectAppids.

(** ** [scripts/fetch_toplist.py] *)

Module FetchToplist.

(** The local variable [candidate] once both [try] blocks of the loop
    body are through: [int(value["appid"])] when the value is a dict with
    that key and [int] accepts it, [int(key)] otherwise, [None] when
    that raises too. *)
Definition candidate (kv : string * json) : option Z :=
  let candidate :=
    match snd kv with
    | JObj fields =>
        if dict_has "appid" fields then py_int (dict_get "appid" fields)
        else None
    | _ => None
    end in
  match candidate with
  | Some n => Some n
  | None => int_of_str (fst kv)
  end.

(** One entry of the loop of [normalize_appids]. *)
Definition normalize_step (acc : list Z * gset Z) (kv : string * json)
  : list Z * gset Z :=
  let (appids, seen) := acc in
  match candidate kv with
  | None => acc
  | Some n =>
      if bool_decide (n ∈ seen) then acc
      else (appids ++ [n], {[ n ]} ∪ seen)
  end.

Definition normalize_appids (raw : json) : list Z :=
  match raw with
  | JObj entries => fst (fold_left normalize_step entries ([], ∅))
  | _ => []
  end.

(** What [main] writes for the raw toplist [raw], once it is loaded: the
    normalized list, cut to [top_n] entries when [top_n] is positive. The
    two checks of the arguments come first. *)
Definition main_document (raw : json) (top_n timeout : Z) : Result json :=
  if timeout <=? 0 then Raise (ValueError "timeout must be > 0")
  else if top_n <? 0 then Raise (ValueError "top-n must be >= 0")
  else
    let appids := normalize_appids raw in
    let appids :=
      if 0 <? top_n then take (Z.to_nat top_n) appids else appids in
    Ok (JObj [("appids", JArr (map JInt appids))]).

End FetchToplist.

(** ** [scripts/filter_spy_appids.py] *)

Module FilterSpyAppids.

Definition extract_appid (entry_key : string) (entry_value : json)
  : option string :=
  let from_value :=
    match entry_value with
    | JObj fields =>
        match dict_get "appid" fields with
        | JNull => None
        | appid_val => str_int <$> py_int appid_val
        end
    | _ => None
    end in
  match from_value with
  | Some appid => Some appid
  | None => str_int <$> int_of_str entry_key
  end.

Definition extract_ccu (entry_value : json) : option Z :=
  match entry_value with
  | JObj fields =>
      match dict_get "ccu" fields with
      | JNull => None
      | raw => py_int raw
      end
  | _ => None
  end.

(** The state of the loops of [main]: the list, the set of identifiers
    seen and the two counters. *)
Record Scan : Type := mkScan {
  appids : list string;
  seen : gset string;
  total_entries : nat;
  filtered_entries : nat;
}.

(** One entry of a page. *)
Definition scan_entry (min_ccu : Z) (st : Scan) (kv : string * json) : Scan :=
  let st := mkScan (appids st) (seen st) (S (total_entries st))
              (filtered_entries st) in
  match extract_ccu (snd kv) with
  | None => st
  | Some ccu =>
      if ccu <=? min_ccu then st
      else
        match extract_appid (fst kv) (snd kv) with
        | None => st
        | Some appid =>
            if bool_decide (appid ∈ seen st) then st
            else mkScan (appids st ++ [appid]) ({[ appid ]} ∪ seen st)
                   (total_entries st) (S (filtered_entries st))
        end
  end.

(** The loop over the page files, in the order of their page numbers. A
    page is what [json.loads] makes of its text, [None] when it raises;
    [read_json_file] refuses a page that is not an object. *)
Fixpoint scan_pages (min_ccu : Z) (pages : list (option json)) (st : Scan)
  : Result Scan :=
  match pages with
  | [] => Ok st
  | None :: _ => Raise JSONDecodeError
  | Some (JObj entries) :: rest =>
      scan_pages min_ccu rest (fold_left (scan_entry min_ccu) entries st)
  | Some _ :: _ => Raise (ValueError "Expected object")
  end.

(** [main] up to the lists and counters it writes; no page file, or no
    input directory, is [pages = []]. *)
Definition main (min_ccu : Z) (pages : list (option json)) : Result Scan :=
  if min_ccu <? 0 then Raise (ValueError "min-ccu must be >= 0")
  else if bool_decide (pages = [])
  then Raise FileNotFoundError
  else scan_pages min_ccu pages (mkScan [] ∅ 0 0).

End FilterSpyAppids.

(** ** What the claims speak of, defined on values *)

(** No [null] at the value or anywhere inside it. *)
Fixpoint null_free (v : json) : bool :=
  match v with
  | JNull => false
  | JArr items => forallb null_free items
  | JObj fields => forallb (fun kv => null_free (snd kv)) fields
  | _ => true
  end.

(** The children the size cap is said to drop: an overlong string, an
    overlong array; [null] is the third kind the code drops. *)
Definition overlong (v : json) : bool :=
  match v with
  | JStr s => (FetchGames.MAX_STORE_STRING_LENGTH <? String.length s)%nat
  | JArr items => (FetchGames.MAX_STORE_LIST_LENGTH <? length items)%nat
  | _ => false
  end.


(** No overlong string and no overlong array at the value or inside. *)
Fixpoint within_caps (v : json) : bool :=
  negb (overlong v)
  && match v with
     | JArr items => forallb within_caps items
     | JObj fields => forallb (fun kv => within_caps (snd kv)) fields
     | _ => true
     end.

(** The test at the head of [drop_blacklisted_fields]. *)
Definition blacklisted (blacklist : gset string) (path_parts : list string)
  : bool :=
  let current_path := String.concat "." path_parts in
  bool_decide (current_path ≠ "") && bool_decide (current_path ∈ blacklist).

(** No node of the value has a dotted path that is blacklisted, the
    value being at [path_parts] and array elements sharing the path of
    their array. *)
Fixpoint clean_of (blacklist : gset string) (v : json)
  (path_parts : list string) {struct v} : bool :=
  negb (blacklisted blacklist path_parts)
  && match v with
     | JArr items => forallb (fun c => clean_of blacklist c path_parts) items
     | JObj fields =>
         forallb (fun kv => clean_of blacklist (snd kv) (path_parts ++ [fst kv]))
           fields
     | _ => true
     end.

(** The entries a loop over [items()] keeps, given what it makes of each
    child. *)
Definition kept_fields (f : string -> json -> json)
  (fields : list (string * json)) : list (string * json) :=
  omap (fun kv => let c := f (fst kv) (snd kv) in
                  if is_None c then None else Some (fst kv, c)) fields.

Definition kept_items (f : json -> json) (items : list json) : list json :=
  omap (fun item => let c := f item in if is_None c then None else Some c)
    items.

(** The outcomes of an attempt after which [http_get_json] backs off
    and goes on to the next attempt. *)
Definition transient (o : http_outcome) : bool :=
  match o with
  | Response _ None => true
  | RaisesHTTPError code => bool_decide (code ∈ [429; 500; 502; 503; 504])
  | RaisesURLError => true
  | _ => false
  end.

(** An environment in which nothing overruns and every random draw is 0. *)
Definition quiet_env (server : nat -> url -> http_outcome) : Env :=
  mkEnv server (fun _ => 0%N) (fun _ => 0%N) (fun _ => "")
    (fun _ => None) (fun _ => None).

(** The world when a script starts at time [now] of the monotonic clock:
    the module level limiters of [fetch_games.py] as they are created,
    nothing slept or requested yet, [out] at the output path. *)
Definition start_world (now : Q) (out : option jsonl_file) : World :=
  mkWorld now
    (fun r => match r with
              | store_limiter => mkRateLimiter (5 # 2) 0
              | steamspy_limiter => mkRateLimiter 2 0
              | steamspy_all_limiter => mkRateLimiter (601 # 10) 0
              | main_limiter => mkRateLimiter 0 0
              end)
    [] [] 0 0 out [].


(** The pause after a transient outcome, given the backoff and the
    number of random draws made before. *)
Definition backoff_pause (env : Env) (cooldown : Q) (o : http_outcome)
  (backoff : Q) (n : nat) : Q :=
  let sleep_for := (backoff + random_value env n * (1 # 2))%Q in
  match o with
  | Response body None =>
      if str_contains "Too many connections" body
      then py_max sleep_for (cooldown + random_value env (S n) * 2)%Q
      else sleep_for
  | _ => sleep_for
  end.

(** The value of a decimal numeral read after the digits that gave
    [acc]. *)
Fixpoint uint_value (d : Decimal.uint) (acc : Z) : Z :=
  match d with
  | Decimal.Nil => acc
  | Decimal.D0 d' => uint_value d' (10 * acc + 0)
  | Decimal.D1 d' => uint_value d' (10 * acc + 1)
  | Decimal.D2 d' => uint_value d' (10 * acc + 2)
  | Decimal.D3 d' => uint_value d' (10 * acc + 3)
  | Decimal.D4 d' => uint_value d' (10 * acc + 4)
  | Decimal.D5 d' => uint_value d' (10 * acc + 5)
  | Decimal.D6 d' => uint_value d' (10 * acc + 6)
  | Decimal.D7 d' => uint_value d' (10 * acc + 7)
  | Decimal.D8 d' => uint_value d' (10 * acc + 8)
  | Decimal.D9 d' => uint_value d' (10 * acc + 9)
  end.

Fixpoint str_forall (p : ascii -> bool) (s : string) : bool :=
  match s with
  | EmptyString => true
  | String c rest => p c && str_forall p rest
  end.

Definition plain_char (c : ascii) : bool :=
  negb (is_space c) && negb (Ascii.eqb c "-") && negb (Ascii.eqb c "+").

(** The identifier a line records: the line is a JSON object with a
    single key, and [int()] accepts the key. *)
Definition line_id (l : jsonl_line) : option Z :=
  match l with
  | LJson (JObj [(key, _)]) => int_of_str key
  | _ => None
  end.

Definition record_ids (f : jsonl_file) : list Z := omap line_id (file_lines f).

(** The lines on which the scan meets an exception: text that is not
    JSON, and a single key that [int()] refuses. *)
Definition line_malformed (l : jsonl_line) : bool :=
  match l with
  | LInvalid => true
  | LJson (JObj [(key, _)]) =>
      match int_of_str key with Some _ => false | None => true end
  | _ => false
  end.

Fixpoint malformed_line_numbers (lines : list jsonl_line) (line_no : nat)
  : list nat :=
  match lines with
  | [] => []
  | l :: rest =>
      (if line_malformed l then [line_no] else [])
      ++ malformed_line_numbers rest (S line_no)
  end.

Definition decodable (l : jsonl_line) : bool :=
  match l with LUndecodable => false | _ => true end.

Definition with_warnings (w : World) (line_nos : list nat) : World :=
  mkWorld (clock w) (limiters w) (slept w) (requested w) (draws w)
    (blocked w) (out_file w) (skip_warnings w ++ line_nos).




(** The url [fetch_store_meta] asks for. *)
Definition store_url (appid : Z) (cc : string) : url :=
  mkUrl "store.steampowered.com" "/api/appdetails"
    [("appids", str_int appid); ("cc", cc); ("l", "english")].

(** The answer of the store for an identifier carries a success flag
    that holds. *)
Definition reports_success (appid : Z) (payload : json) : bool :=
  match payload with
  | JObj fields =>
      match dict_get_default (str_int appid) (JObj []) fields with
      | JObj one => truthy (dict_get "success" one)
      | _ => false
      end
  | _ => false
  end.


(** A store that knows the identifiers 10 and 30 and reports no success
    for any other. *)
Definition scenario_server (n : nat) (u : url) : http_outcome :=
  let appid := FetchGames.first_query_value "appids" (query u) in
  if bool_decide (appid ∈ ["10"; "30"])
  then Response "{...}"
         (Some (JObj [(appid,
                       JObj [("success", JBool true);
                             ("data",
                              JObj [("name", JStr "Game");
                                    ("about_the_game", JStr "text")])])]))
  else Response "{...}" (Some (JObj [(appid, JObj [("success", JBool false)])])).


(** The url [fetch_spy_details] asks for. *)
Definition spy_url (appid : Z) : url :=
  mkUrl "steamspy.com" "/api.php"
    [("request", "appdetails"); ("appid", str_int appid)].

(** The backoff after [k] transient attempts: doubled [k] times. *)
Fixpoint doubled (backoff : Q) (k : nat) : Q :=
  match k with
  | O => backoff
  | S k' => doubled (backoff * 2)%Q k'
  end.

(** A computation that leaves the limiter object [r] as it is. *)
Definition keeps_limiter (r : limiter_ref) {A} (m : M A) : Prop :=
  forall w, limiters (snd (m w)) r = limiters w r.

(** A list without its repetitions, every entry kept where it first
    occurs. *)
Fixpoint keep_first {A} `{EqDecision A} (l : list A) : list A :=
  match l with
  | [] => []
  | x :: rest => x :: filter (fun y => y <> x) (keep_first rest)
  end.



(** * Properties *)

(** ** Induction on JSON values *)

Lemma json_induction (P : json -> Prop) :
  P JNull ->
  (forall b, P (JBool b)) ->
  (forall z, P (JInt z)) ->
  (forall f, P (JFloat f)) ->
  (forall s, P (JStr s)) ->
  (forall items, Forall P items -> P (JArr items)) ->
  (forall fields, Forall (fun kv => P (snd kv)) fields -> P (JObj fields)) ->
  forall v, P v.
Proof.
  intros Hnull Hbool Hint Hfloat Hstr Harr Hobj.
  fix IH 1. intros [ | b | z | f | s | items | fields ].
  - exact Hnull.
  - apply Hbool.
  - apply Hint.
  - apply Hfloat.
  - apply Hstr.
  - apply Harr. induction items as [ | x xs IHxs ]; constructor.
    + apply IH.
    + exact IHxs.
  - apply Hobj. induction fields as [ | [k x] xs IHxs ]; constructor.
    + apply IH.
    + exact IHxs.
Qed.

(** ** Dicts and the two loops of the transforms *)

Lemma dict_set_fresh key v d :
  key ∉ map fst d -> dict_set key v d = d ++ [(key, v)].
Proof.
  induction d as [ | [k old] rest IH ]; simpl; intros Hfresh.
  - reflexivity.
  - apply not_elem_of_cons in Hfresh as [Hne Hrest].
    destruct (String.eqb_spec k key) as [-> | _]; [congruence | ].
    now rewrite IH.
Qed.

Lemma fold_items_kept (g : string * json -> json) fields acc :
  NoDup (map fst acc ++ map fst fields) ->
  fold_left (fun out kv => if is_None (g kv) then out
                           else dict_set (fst kv) (g kv) out) fields acc
  = acc ++ omap (fun kv => if is_None (g kv) then None
                           else Some (fst kv, g kv)) fields.
Proof.
  revert acc. induction fields as [ | kv rest IH ]; intros acc Hnd; simpl.
  - now rewrite app_nil_r.
  - simpl in Hnd. destruct (is_None (g kv)) eqn:Hnone.
    + apply IH. apply NoDup_app in Hnd as (Hacc & Hdisj & Hrest).
      apply NoDup_app. split_and!; [done | | by inversion Hrest].
      intros k Hk Hin. apply (Hdisj k Hk). now right.
    + rewrite IH.
      * rewrite dict_set_fresh.
        -- now rewrite <- app_assoc.
        -- apply NoDup_app in Hnd as (_ & Hdisj & _).
           intros Hin. apply (Hdisj _ Hin). now left.
      * rewrite dict_set_fresh.
        -- rewrite map_app. simpl. rewrite <- app_assoc. exact Hnd.
        -- apply NoDup_app in Hnd as (_ & Hdisj & _).
           intros Hin. apply (Hdisj _ Hin). now left.
Qed.

Lemma fold_append_kept (g : json -> json) items acc :
  fold_left (fun out item => if is_None (g item) then out
                             else out ++ [g item]) items acc
  = acc ++ kept_items g items.
Proof.
  revert acc. induction items as [ | item rest IH ]; intros acc; simpl.
  - now rewrite app_nil_r.
  - unfold kept_items in *. simpl. destruct (is_None (g item)).
    + apply IH.
    + rewrite IH. now rewrite <- app_assoc.
Qed.

Lemma dict_set_Forall (Q : string * json -> Prop) key v d :
  Q (key, v) -> Forall Q d -> Forall Q (dict_set key v d).
Proof.
  intros Hq. induction 1 as [ | [k old] rest Hhd Htl IH ]; simpl.
  - now repeat constructor.
  - destruct (String.eqb_spec k key) as [-> | _]; constructor; auto.
Qed.

Lemma fold_items_Forall (Q : string * json -> Prop)
  (g : string * json -> json) fields acc :
  Forall (fun kv => is_None (g kv) = false -> Q (fst kv, g kv)) fields ->
  Forall Q acc ->
  Forall Q (fold_left (fun out kv => if is_None (g kv) then out
                                     else dict_set (fst kv) (g kv) out)
              fields acc).
Proof.
  intros Hall. revert acc.
  induction Hall as [ | kv rest Hkv _ IH ]; intros acc Hacc; simpl.
  - exact Hacc.
  - apply IH. destruct (is_None (g kv)) eqn:Hnone; [exact Hacc | ].
    apply dict_set_Forall; auto.
Qed.

Lemma kept_items_cons (g : json -> json) item rest :
  kept_items g (item :: rest)
  = if is_None (g item) then kept_items g rest
    else g item :: kept_items g rest.
Proof. unfold kept_items. simpl. now destruct (is_None (g item)). Qed.

Lemma kept_items_Forall (Q : json -> Prop) (g : json -> json) items :
  Forall (fun item => is_None (g item) = false -> Q (g item)) items ->
  Forall Q (kept_items g items).
Proof.
  induction 1 as [ | item rest Hitem _ IH ]; unfold kept_items in *; simpl.
  - constructor.
  - destruct (is_None (g item)) eqn:Hnone; [exact IH | ].
    constructor; auto.
Qed.

Lemma kept_items_length (g : json -> json) items :
  (length (kept_items g items) <= length items)%nat.
Proof.
  induction items as [ | item rest IH ]; [reflexivity | ].
  rewrite kept_items_cons. destruct (is_None (g item)); simpl; lia.
Qed.

Lemma kept_fields_cons (f : string -> json -> json) k c rest :
  kept_fields f ((k, c) :: rest)
  = if is_None (f k c) then kept_fields f rest
    else (k, f k c) :: kept_fields f rest.
Proof. unfold kept_fields. simpl. now destruct (is_None (f k c)). Qed.

Lemma kept_fields_id (f : string -> json -> json) fields :
  Forall (fun kv => f (fst kv) (snd kv) = snd kv /\ is_None (snd kv) = false)
    fields ->
  kept_fields f fields = fields.
Proof.
  induction 1 as [ | [k c] rest [Heq Hsome] _ IH ]; [reflexivity | ].
  simpl in Heq, Hsome. rewrite kept_fields_cons, Heq, Hsome. now rewrite IH.
Qed.

Lemma kept_items_id (g : json -> json) items :
  Forall (fun item => g item = item /\ is_None item = false) items ->
  kept_items g items = items.
Proof.
  induction 1 as [ | c rest [Heq Hsome] _ IH ]; [reflexivity | ].
  rewrite kept_items_cons, Heq, Hsome. now rewrite IH.
Qed.

Lemma null_free_not_None v : null_free v = true -> is_None v = false.
Proof. now destruct v. Qed.

Lemma forallb_Forall_true {A} (p : A -> bool) l :
  forallb p l = true <-> Forall (fun x => p x = true) l.
Proof.
  rewrite forallb_forall, Forall_forall.
  split; intros H x Hx; apply H; now apply list_elem_of_In.
Qed.

(** ** [prune_store_payload] *)

Lemma prune_obj fields :
  NoDup (map fst fields) ->
  FetchGames.prune_store_payload (JObj fields)
  = JObj (kept_fields (fun _ c => FetchGames.prune_store_payload c) fields).
Proof.
  intros Hnd. simpl. f_equal.
  exact (fold_items_kept (fun kv => FetchGames.prune_store_payload (snd kv))
           fields [] Hnd).
Qed.

Lemma prune_arr items :
  FetchGames.prune_store_payload (JArr items)
  = if overlong (JArr items) then JNull
    else JArr (kept_items FetchGames.prune_store_payload items).
Proof.
  simpl. destruct (_ <? _)%nat; [reflexivity | ]. f_equal.
  exact (fold_append_kept FetchGames.prune_store_payload items []).
Qed.


Lemma prune_null_free v :
  is_None (FetchGames.prune_store_payload v)
  || null_free (FetchGames.prune_store_payload v) = true.
Proof.
  induction v as [ | b | z | f | s | items IH | fields IH ]
    using json_induction; try reflexivity.
  - simpl. now destruct (_ <? _)%nat.
  - rewrite prune_arr. destruct (overlong _); [reflexivity | ]. simpl.
    apply forallb_Forall_true, kept_items_Forall.
    eapply Forall_impl; [exact IH | ]. simpl. intros c Hc Hnone.
    now rewrite Hnone in Hc.
  - simpl. apply forallb_Forall_true.
    apply (fold_items_Forall (fun kv => null_free (snd kv) = true)
             (fun kv => FetchGames.prune_store_payload (snd kv)));
      [ | constructor ].
    eapply Forall_impl; [exact IH | ]. simpl. intros kv Hc Hnone.
    now rewrite Hnone in Hc.
Qed.

Lemma prune_within_caps v :
  is_None (FetchGames.prune_store_payload v)
  || within_caps (FetchGames.prune_store_payload v) = true.
Proof.
  induction v as [ | b | z | f | s | items IH | fields IH ]
    using json_induction; try reflexivity.
  - simpl. destruct (_ <? _)%nat eqn:Hlen; [reflexivity | ].
    simpl. now rewrite Hlen.
  - rewrite prune_arr. destruct (overlong _) eqn:Hlong; [reflexivity | ].
    simpl in *. apply andb_true_iff. split.
    + apply negb_true_iff, Nat.ltb_ge.
      apply Nat.ltb_ge in Hlong.
      pose proof (kept_items_length FetchGames.prune_store_payload items).
      lia.
    + apply forallb_Forall_true, kept_items_Forall.
      eapply Forall_impl; [exact IH | ]. simpl. intros c Hc Hnone.
      now rewrite Hnone in Hc.
  - simpl. apply forallb_Forall_true.
    apply (fold_items_Forall (fun kv => within_caps (snd kv) = true)
             (fun kv => FetchGames.prune_store_payload (snd kv)));
      [ | constructor ].
    eapply Forall_impl; [exact IH | ]. simpl. intros kv Hc Hnone.
    now rewrite Hnone in Hc.
Qed.

Lemma prune_unchanged v :
  json_wf v = true -> null_free v = true -> within_caps v = true ->
  FetchGames.prune_store_payload v = v.
Proof.
  induction v as [ | b | z | f | s | items IH | fields IH ]
    using json_induction; try reflexivity.
  - intros _ _ Hcaps. simpl in *. rewrite andb_true_r in Hcaps.
    apply negb_true_iff in Hcaps. now rewrite Hcaps.
  - intros Hwf Hnf Hcaps. rewrite prune_arr.
    simpl in Hwf, Hnf, Hcaps. apply andb_true_iff in Hcaps as [Hlen Hcaps].
    apply negb_true_iff in Hlen. simpl. rewrite Hlen. f_equal.
    apply kept_items_id.
    apply forallb_Forall_true in Hwf, Hnf, Hcaps.
    rewrite Forall_forall in *. intros c Hc. split.
    + apply IH; auto.
    + apply null_free_not_None; auto.
  - intros Hwf Hnf Hcaps. simpl in Hwf, Hnf, Hcaps.
    apply andb_true_iff in Hwf as [Hnd Hwf]. apply bool_decide_eq_true in Hnd.
    rewrite prune_obj by exact Hnd. f_equal. apply kept_fields_id.
    apply forallb_Forall_true in Hwf, Hnf, Hcaps.
    rewrite Forall_forall in *. intros kv Hkv. split.
    + apply IH; auto.
    + apply null_free_not_None; auto.
Qed.

(** ** [drop_blacklisted_fields] *)

Lemma drop_on_blacklisted v blacklist path_parts :
  blacklisted blacklist path_parts = true ->
  FetchStoreRaw.drop_blacklisted_fields v blacklist path_parts = JNull.
Proof.
  unfold blacklisted. intros Hb. destruct v; simpl; now rewrite Hb.
Qed.

Lemma drop_obj fields blacklist path_parts :
  NoDup (map fst fields) ->
  blacklisted blacklist path_parts = false ->
  FetchStoreRaw.drop_blacklisted_fields (JObj fields) blacklist path_parts
  = JObj (kept_fields
            (fun key child =>
               FetchStoreRaw.drop_blacklisted_fields child blacklist
                 (path_parts ++ [key]))
            fields).
Proof.
  unfold blacklisted. intros Hnd Hb. simpl. rewrite Hb. f_equal.
  exact (fold_items_kept
           (fun kv => FetchStoreRaw.drop_blacklisted_fields (snd kv) blacklist
                        (path_parts ++ [fst kv]))
           fields [] Hnd).
Qed.

Lemma drop_arr items blacklist path_parts :
  blacklisted blacklist path_parts = false ->
  FetchStoreRaw.drop_blacklisted_fields (JArr items) blacklist path_parts
  = JArr (kept_items
            (fun child =>
               FetchStoreRaw.drop_blacklisted_fields child blacklist path_parts)
            items).
Proof.
  unfold blacklisted. intros Hb. simpl. rewrite Hb. f_equal.
  exact (fold_append_kept
           (fun child =>
              FetchStoreRaw.drop_blacklisted_fields child blacklist path_parts)
           items []).
Qed.

Lemma drop_None v blacklist path_parts :
  is_None (FetchStoreRaw.drop_blacklisted_fields v blacklist path_parts)
  = blacklisted blacklist path_parts || is_None v.
Proof.
  unfold blacklisted.
  destruct v; simpl; now destruct (_ && _).
Qed.

Lemma drop_null_free v blacklist path_parts :
  is_None (FetchStoreRaw.drop_blacklisted_fields v blacklist path_parts)
  || null_free (FetchStoreRaw.drop_blacklisted_fields v blacklist path_parts)
  = true.
Proof.
  revert path_parts.
  induction v as [ | b | z | f | s | items IH | fields IH ]
    using json_induction; intros path_parts;
    destruct (blacklisted blacklist path_parts) eqn:Hb;
    try (rewrite drop_on_blacklisted by exact Hb; reflexivity);
    try (unfold blacklisted in Hb; simpl; rewrite Hb; reflexivity).
  - rewrite drop_arr by exact Hb. simpl.
    apply forallb_Forall_true, kept_items_Forall.
    eapply Forall_impl; [exact IH | ]. simpl. intros c Hc Hnone.
    specialize (Hc path_parts). now rewrite Hnone in Hc.
  - unfold blacklisted in Hb. simpl. rewrite Hb. simpl.
    apply forallb_Forall_true.
    apply (fold_items_Forall (fun kv => null_free (snd kv) = true)
             (fun kv => FetchStoreRaw.drop_blacklisted_fields (snd kv)
                          blacklist (path_parts ++ [fst kv])));
      [ | constructor ].
    eapply Forall_impl; [exact IH | ]. simpl. intros kv Hc Hnone.
    specialize (Hc (path_parts ++ [fst kv])). now rewrite Hnone in Hc.
Qed.

Lemma drop_clean v blacklist path_parts :
  is_None (FetchStoreRaw.drop_blacklisted_fields v blacklist path_parts)
  || clean_of blacklist
       (FetchStoreRaw.drop_blacklisted_fields v blacklist path_parts)
       path_parts
  = true.
Proof.
  revert path_parts.
  induction v as [ | b | z | f | s | items IH | fields IH ]
    using json_induction; intros path_parts;
    destruct (blacklisted blacklist path_parts) eqn:Hb;
    try (rewrite drop_on_blacklisted by exact Hb; reflexivity);
    try (pose proof Hb as Hb'; unfold blacklisted in Hb'; simpl;
         rewrite Hb'; simpl; fold (blacklisted blacklist path_parts);
         now rewrite ?Hb).
  - rewrite drop_arr by exact Hb. simpl. rewrite Hb. simpl.
    apply forallb_Forall_true, kept_items_Forall.
    eapply Forall_impl; [exact IH | ]. simpl. intros c Hc Hnone.
    specialize (Hc path_parts). now rewrite Hnone in Hc.
  - pose proof Hb as Hb'. unfold blacklisted in Hb'. simpl. rewrite Hb'.
    simpl. fold (blacklisted blacklist path_parts). rewrite Hb. simpl.
    apply forallb_Forall_true.
    apply (fold_items_Forall
             (fun kv => clean_of blacklist (snd kv) (path_parts ++ [fst kv])
                        = true)
             (fun kv => FetchStoreRaw.drop_blacklisted_fields (snd kv)
                          blacklist (path_parts ++ [fst kv])));
      [ | constructor ].
    eapply Forall_impl; [exact IH | ]. simpl. intros kv Hc Hnone.
    specialize (Hc (path_parts ++ [fst kv])). now rewrite Hnone in Hc.
Qed.

Lemma drop_unchanged v blacklist path_parts :
  json_wf v = true -> null_free v = true ->
  clean_of blacklist v path_parts = true ->
  FetchStoreRaw.drop_blacklisted_fields v blacklist path_parts = v.
Proof.
  revert path_parts.
  induction v as [ | b | z | f | s | items IH | fields IH ]
    using json_induction; intros path_parts Hwf Hnf Hclean;
    simpl in Hclean; apply andb_true_iff in Hclean as [Hb Hclean];
    apply negb_true_iff in Hb;
    try (unfold blacklisted in Hb; simpl; now rewrite Hb).
  - rewrite drop_arr by exact Hb. f_equal. apply kept_items_id.
    simpl in Hwf, Hnf.
    apply forallb_Forall_true in Hwf, Hnf, Hclean.
    rewrite Forall_forall in *. intros c Hc. split.
    + apply IH; auto.
    + apply null_free_not_None; auto.
  - simpl in Hwf, Hnf.
    apply andb_true_iff in Hwf as [Hnd Hwf]. apply bool_decide_eq_true in Hnd.
    rewrite drop_obj by assumption. f_equal. apply kept_fields_id.
    apply forallb_Forall_true in Hwf, Hnf, Hclean.
    rewrite Forall_forall in *. intros kv Hkv. split.
    + apply IH; auto.
    + apply null_free_not_None; auto.
Qed.

(** ** The entries of the output object, key by key *)




(** ** The size cap (claim C8) *)




(** ** The path blacklist (claim C9) *)




(** ** Both transforms and [null] (claim C10) *)


(** ** The identifier list (claim C5) *)

Lemma fold_coerce source acc :
  fold_left (fun appids item => match py_int item with
                                | Some n => appids ++ [n]
                                | None => appids
                                end) source acc
  = acc ++ omap py_int source.
Proof.
  revert acc. induction source as [ | item rest IH ]; intros acc; simpl.
  - now rewrite app_nil_r.
  - rewrite IH. destruct (py_int item); [ | reflexivity ].
    now rewrite <- app_assoc.
Qed.

(** C5, as stated, fails on a repeated entry. The claim has
    [load_local_appids] remove duplicates; on the bare list [[1, 1]] it
    returns both entries. *)
Lemma load_local_appids_keeps_duplicates :
  FetchCommon.load_local_appids (Some (DocJson (JArr [JInt 1; JInt 1])))
  = Ok [1; 1]
  /\ ~ NoDup [1; 1].
Proof.
  split; [reflexivity | ].
  intros Hnd. apply NoDup_cons in Hnd as [Hfresh _].
  apply Hfresh. now left.
Qed.

(** C5, amended. For a document of either supported shape,
    [{"appids": [...]}] or a bare list, [load_local_appids] returns the
    integer coercions of the entries in their order, repeated
    identifiers kept as often as they occur; the two shapes with the
    same entries give the same sequence, and an entry that [int()]
    refuses is silently dropped. *)
Theorem load_local_appids_either_shape
  (fields : list (string * json)) (items : list json) :
  dict_get "appids" fields = JArr items ->
  FetchCommon.load_local_appids (Some (DocJson (JObj fields)))
  = Ok (omap py_int items)
  /\ FetchCommon.load_local_appids (Some (DocJson (JArr items)))
     = Ok (omap py_int items)
  /\ (forall n, n ∈ omap py_int items
                <-> exists item, item ∈ items /\ py_int item = Some n).
Proof.
  intros Hget. split_and!.
  - unfold FetchCommon.load_local_appids. rewrite Hget.
    now rewrite fold_coerce.
  - unfold FetchCommon.load_local_appids. now rewrite fold_coerce.
  - intros n. apply list_elem_of_omap.
Qed.

Lemma load_local_appids_either_shape_witness :
  let items := [JInt 10; JStr " 20 "; JStr "x"; JNull; JInt 10] in
  FetchCommon.load_local_appids
    (Some (DocJson (JObj [("name", JStr "top"); ("appids", JArr items)])))
  = Ok [10; 20; 10]
  /\ FetchCommon.load_local_appids (Some (DocJson (JArr items)))
     = Ok [10; 20; 10].
Proof.
  intros items.
  destruct (load_local_appids_either_shape
              [("name", JStr "top"); ("appids", JArr items)] items)
    as (Hdict & Hlist & _).
  - reflexivity.
  - rewrite Hdict, Hlist. split; reflexivity.
Defined.

(** ** The rate limiter (claim C7) *)

Lemma Qltb_lt x y : Qltb x y = true <-> (x < y)%Q.
Proof.
  unfold Qltb. rewrite negb_true_iff. split.
  - intros H. apply Qnot_le_lt. intros Hle.
    apply Qle_bool_iff in Hle. congruence.
  - intros H. destruct (Qle_bool y x) eqn:Hle; [ | reflexivity ].
    apply Qle_bool_iff in Hle. exfalso. exact (Qlt_not_le _ _ H Hle).
Qed.

Lemma Qltb_ge x y : Qltb x y = false <-> (y <= x)%Q.
Proof.
  unfold Qltb. rewrite negb_false_iff. apply Qle_bool_iff.
Qed.


Ltac run_monad :=
  unfold mbind, M_bind, bind, mret, M_ret, ret, raise, lift, monotonic,
    get_limiter, set_limiter, random, urlopen in *;
  simpl in *.

Lemma sleep_run env secs w :
  (0 <= secs)%Q ->
  sleep env secs w
  = (Ok tt,
     mkWorld (clock w + secs + ns (env_lag env (blocked w)))
       (limiters w) (slept w ++ [secs]) (requested w) (draws w)
       (S (blocked w)) (out_file w) (skip_warnings w)).
Proof.
  intros Hsecs. unfold sleep.
  destruct (Qltb secs 0) eqn:Hneg; [ | reflexivity ].
  apply Qltb_lt in Hneg. exfalso. exact (Qlt_not_le _ _ Hneg Hsecs).
Qed.

(** What [wait] does, in full. *)
Lemma wait_run env self w :
  let lim := limiters w self in
  let delta := (clock w - _last_ts lim)%Q in
  let waited := (min_interval lim - delta)%Q in
  wait env self w
  = if Qltb delta (min_interval lim)
    then
      let after := (clock w + waited + ns (env_lag env (blocked w)))%Q in
      (Ok waited,
       mkWorld after
         (fun r => if decide (r = self)
                   then mkRateLimiter (min_interval lim) after
                   else limiters w r)
         (slept w ++ [waited]) (requested w) (draws w) (S (blocked w))
         (out_file w) (skip_warnings w))
    else
      (Ok 0%Q,
       mkWorld (clock w)
         (fun r => if decide (r = self)
                   then mkRateLimiter (min_interval lim) (clock w)
                   else limiters w r)
         (slept w) (requested w) (draws w) (blocked w)
         (out_file w) (skip_warnings w)).
Proof.
  intros lim delta waited. unfold wait. run_monad.
  fold lim. fold delta. destruct (Qltb delta (min_interval lim)) eqn:Hlt.
  - fold waited. rewrite sleep_run; [reflexivity | ].
    apply Qltb_lt in Hlt. unfold waited. lra.
  - reflexivity.
Qed.



(** ** [http_get_json] (claims C3 and C4) *)

Lemma random_value_range env n :
  (0 <= random_value env n)%Q /\ (random_value env n < 1)%Q.
Proof.
  unfold random_value, Qle, Qlt. simpl.
  pose proof (N.mod_upper_bound (env_random env n) (2 ^ 53)) as Hlt.
  assert ((2 ^ 53)%N <> 0%N) as Hnz by (vm_compute; congruence).
  specialize (Hlt Hnz).
  assert (Z.pos (2 ^ 53) = Z.of_N (2 ^ 53)) as -> by reflexivity.
  clear Hnz. set (x := (env_random env n mod 2 ^ 53)%N) in *. clearbody x.
  set (m := (2 ^ 53)%N) in *. clearbody m. lia.
Qed.

#[local] Arguments sleep : simpl never.
#[local] Arguments wait : simpl never.

Lemma wait_frame env self w :
  exists waited,
    wait env self w = (Ok waited, snd (wait env self w))
    /\ requested (snd (wait env self w)) = requested w
    /\ draws (snd (wait env self w)) = draws w
    /\ out_file (snd (wait env self w)) = out_file w
    /\ skip_warnings (snd (wait env self w)) = skip_warnings w.
Proof.
  rewrite wait_run. destruct (Qltb _ _); eexists; simpl; done.
Qed.

Lemma py_max_le a b : (a <= py_max a b)%Q /\ (b <= py_max a b)%Q.
Proof.
  unfold py_max. destruct (Qltb a b) eqn:Hlt.
  - apply Qltb_lt in Hlt. lra.
  - apply Qltb_ge in Hlt. lra.
Qed.

Lemma backoff_pause_ge env cooldown o backoff n :
  (backoff <= backoff_pause env cooldown o backoff n)%Q.
Proof.
  pose proof (random_value_range env n) as [H0 _].
  assert (backoff <= backoff + random_value env n * (1 # 2))%Q by lra.
  unfold backoff_pause. destruct o as [body [payload | ] | | | ]; try done.
  destruct (str_contains _ body); [ | done ].
  pose proof (py_max_le (backoff + random_value env n * (1 # 2))
                (cooldown + random_value env (S n) * 2)) as [Hle _].
  lra.
Qed.

Lemma common_attempt_transient env u limiter retries timeout n backoff w :
  (0 <= backoff)%Q ->
  transient (env_server env (length (requested w)) u) = true ->
  exists w3,
    FetchCommon.http_get_json_loop env u limiter retries timeout (S n)
      backoff w
    = FetchCommon.http_get_json_loop env u limiter retries timeout n
        (backoff * 2)%Q w3
    /\ requested w3 = requested w ++ [u]
    /\ slept w3
       = slept (snd (wait env limiter w))
         ++ [backoff_pause env 60 (env_server env (length (requested w)) u)
               backoff (draws w)]
    /\ out_file w3 = out_file w
    /\ skip_warnings w3 = skip_warnings w.
Proof.
  intros Hb Htr.
  pose proof (backoff_pause_ge env 60
                (env_server env (length (requested w)) u) backoff (draws w))
    as Hpause.
  destruct (wait_frame env limiter w) as (waited & Hw & Hreq & Hdr & Hout & Hsk).
  cbn [FetchCommon.http_get_json_loop].
  unfold mbind, M_bind, bind, urlopen. rewrite Hw, Hreq.
  destruct (env_server env (length (requested w)) u)
    as [body [payload | ] | code | | name ]; simpl in Htr; try discriminate;
    rewrite ?Htr; unfold backoff_pause in *; unfold random; simpl;
    rewrite ?Hdr.
  - destruct (str_contains _ body); unfold mret, M_ret, ret; simpl;
      rewrite ?Hdr; rewrite sleep_run by lra; simpl;
      (eexists; split; [reflexivity | ]); simpl; rewrite Hout, Hsk; done.
  - rewrite sleep_run by lra; simpl.
    eexists; split; [reflexivity | ]. simpl. rewrite Hout, Hsk. done.
  - rewrite sleep_run by lra; simpl.
    eexists; split; [reflexivity | ]. simpl. rewrite Hout, Hsk. done.
Qed.


Lemma common_attempt_success env u limiter retries timeout n backoff w
  body payload :
  env_server env (length (requested w)) u = Response body (Some payload) ->
  exists w2,
    FetchCommon.http_get_json_loop env u limiter retries timeout (S n)
      backoff w
    = (Ok payload, w2)
    /\ requested w2 = requested w ++ [u]
    /\ out_file w2 = out_file w
    /\ skip_warnings w2 = skip_warnings w.
Proof.
  intros Hout.
  destruct (wait_frame env limiter w) as (waited & Hw & Hreq & _ & Hf & Hsk).
  cbn [FetchCommon.http_get_json_loop].
  unfold mbind, M_bind, bind, urlopen. rewrite Hw, Hreq, Hout.
  eexists. split; [reflexivity | ]. simpl. rewrite Hf, Hsk. done.
Qed.







(** In [fetch_common.py] the pause after a body that is not JSON and
    holds the marker is at least 60 seconds, whatever the backoff. *)
Lemma common_marker_cooldown env u limiter retries timeout n backoff w body :
  (0 <= backoff)%Q ->
  env_server env (length (requested w)) u = Response body None ->
  str_contains "Too many connections" body = true ->
  exists w3 pause,
    FetchCommon.http_get_json_loop env u limiter retries timeout (S n)
      backoff w
    = FetchCommon.http_get_json_loop env u limiter retries timeout n
        (backoff * 2)%Q w3
    /\ slept w3 = slept (snd (wait env limiter w)) ++ [pause]
    /\ (60 <= pause)%Q /\ (backoff <= pause)%Q.
Proof.
  intros Hb Hout Hmark.
  destruct (common_attempt_transient env u limiter retries timeout n
              backoff w Hb) as (w3 & Hstep & _ & Hslept & _).
  { now rewrite Hout. }
  exists w3. eexists. split_and!; [exact Hstep | exact Hslept | | ].
  - rewrite Hout. unfold backoff_pause. rewrite Hmark.
    pose proof (random_value_range env (S (draws w))) as [H0 _].
    pose proof (py_max_le
                  (backoff + random_value env (draws w) * (1 # 2))
                  (60 + random_value env (S (draws w)) * 2)) as [_ Hle].
    lra.
  - apply backoff_pause_ge.
Qed.

(** C4 fails in [fetch_games.py]. The body is not JSON and holds the
    marker, both random draws are 0 and the backoff is 1 and then 2: the
    pause before the next attempt is 5 seconds each time, where the claim
    has it floored at tens of seconds. *)
Theorem games_marker_pause_is_five_seconds :
  let env := quiet_env (fun _ _ => Response "Too many connections" None) in
  let u := mkUrl "steamspy.com" "/api.php"
             [("request", "appdetails"); ("appid", "10")] in
  let run := FetchGames.http_get_json env 2 u 25 (start_world 10 None) in
  fst run = Raise (RuntimeError_failed_after_retries 2 u)
  /\ Forall2 Qeq (slept (snd run)) [5%Q; 5%Q].
Proof.
  intros env u run. split; [reflexivity | ].
  vm_compute. repeat constructor.
Qed.

(** ** [int(str(n))] is [n] *)

Lemma uint_value_pos d : forall acc : positive,
  uint_value d (Z.pos acc) = Z.pos (Pos.of_uint_acc d acc).
Proof.
  induction d; intros acc; simpl; try reflexivity;
    rewrite <- IHd; f_equal; lia.
Qed.

Lemma uint_value_of_uint d : uint_value d 0 = Z.of_N (Pos.of_uint d).
Proof.
  induction d; simpl; try reflexivity; try exact IHd;
    apply (uint_value_pos d).
Qed.

Lemma parse_digits_numeral d : forall acc after_digit,
  d <> Decimal.Nil \/ after_digit = true ->
  parse_digits (NilEmpty.string_of_uint d) acc after_digit
  = Some (uint_value d acc).
Proof.
  induction d; intros acc after_digit Hok; simpl;
    try (apply IHd; now right).
  destruct Hok as [Hnil | ->]; [congruence | reflexivity].
Qed.

Lemma numeral_plain d :
  str_forall plain_char (NilEmpty.string_of_uint d) = true.
Proof. induction d; simpl; try reflexivity; exact IHd. Qed.

Lemma lstrip_plain s :
  match s with
  | EmptyString => True
  | String c _ => is_space c = false
  end -> lstrip s = s.
Proof. destruct s as [ | c rest ]; simpl; [done | ]. now intros ->. Qed.

Lemma rstrip_plain s :
  str_forall (fun c => negb (is_space c)) s = true -> rstrip s = s.
Proof.
  induction s as [ | c rest IH ]; simpl; [done | ].
  intros Hall. apply andb_true_iff in Hall as [Hc Hrest].
  rewrite IH by exact Hrest. apply negb_true_iff in Hc. rewrite Hc.
  now destruct rest.
Qed.

Lemma str_forall_impl (p q : ascii -> bool) s :
  (forall c, p c = true -> q c = true) ->
  str_forall p s = true -> str_forall q s = true.
Proof.
  intros Hpq. induction s as [ | c rest IH ]; simpl; [done | ].
  intros Hall. apply andb_true_iff in Hall as [Hc Hrest].
  now rewrite (Hpq c Hc), IH.
Qed.

Lemma plain_not_space c : plain_char c = true -> negb (is_space c) = true.
Proof.
  unfold plain_char. intros H.
  apply andb_true_iff in H as [H _]. now apply andb_true_iff in H as [H _].
Qed.

Lemma strip_plain s : str_forall plain_char s = true -> strip s = s.
Proof.
  intros Hall. unfold strip. rewrite lstrip_plain.
  - apply rstrip_plain. eapply str_forall_impl; [ | exact Hall ].
    apply plain_not_space.
  - destruct s as [ | c rest ]; [done | ]. simpl in Hall.
    apply andb_true_iff in Hall as [Hc _].
    apply plain_not_space in Hc. now apply negb_true_iff in Hc.
Qed.

Lemma int_of_str_numeral d :
  d <> Decimal.Nil ->
  int_of_str (NilEmpty.string_of_uint d) = Some (uint_value d 0)
  /\ int_of_str (String "-" (NilEmpty.string_of_uint d))
     = Some (- uint_value d 0).
Proof.
  intros Hnil. pose proof (numeral_plain d) as Hplain.
  pose proof (parse_digits_numeral d 0 false (or_introl Hnil)) as Hparse.
  split.
  - unfold int_of_str. rewrite strip_plain by exact Hplain.
    destruct (NilEmpty.string_of_uint d) as [ | c rest ] eqn:Hs.
    + destruct d; simpl in Hs; congruence.
    + simpl in Hplain. apply andb_true_iff in Hplain as [Hc _].
      unfold plain_char in Hc.
      apply andb_true_iff in Hc as [Hc Hplus].
      apply andb_true_iff in Hc as [_ Hminus].
      apply negb_true_iff in Hplus, Hminus. now rewrite Hplus, Hminus.
  - unfold int_of_str.
    assert (strip (String "-" (NilEmpty.string_of_uint d))
            = String "-" (NilEmpty.string_of_uint d)) as ->.
    { unfold strip. rewrite lstrip_plain by reflexivity.
      apply rstrip_plain. simpl. eapply str_forall_impl; [ | exact Hplain ].
      apply plain_not_space. }
    simpl. now rewrite Hparse.
Qed.

Lemma int_of_str_str_int z : int_of_str (str_int z) = Some z.
Proof.
  destruct z as [ | p | p ]; [reflexivity | | ].
  - unfold str_int. simpl.
    pose proof (Unsigned.to_uint_nonnil p) as Hnil.
    destruct (int_of_str_numeral (Pos.to_uint p) Hnil) as [Hpos _].
    unfold NilZero.string_of_uint.
    destruct (Pos.to_uint p) eqn:Hd; try congruence;
      rewrite Hpos, uint_value_of_uint, <- Hd, Unsigned.of_to; reflexivity.
  - unfold str_int. simpl.
    pose proof (Unsigned.to_uint_nonnil p) as Hnil.
    destruct (int_of_str_numeral (Pos.to_uint p) Hnil) as [_ Hneg].
    unfold NilZero.string_of_uint.
    destruct (Pos.to_uint p) eqn:Hd; try congruence;
      rewrite Hneg, uint_value_of_uint, <- Hd, Unsigned.of_to; reflexivity.
Qed.

(** ** The resume scan (claim C6) *)

Lemma with_warnings_nil w : with_warnings w [] = w.
Proof. destruct w. unfold with_warnings. simpl. now rewrite app_nil_r. Qed.

Lemma with_warnings_app w l1 l2 :
  with_warnings (with_warnings w l1) l2 = with_warnings w (l1 ++ l2).
Proof. unfold with_warnings. simpl. now rewrite app_assoc. Qed.

(** On text that decodes, the scan reads every line, returns the
    identifiers of the lines that record one, warns about the malformed
    lines and raises nothing. *)
Lemma scan_lines_decodable lines :
  forall line_no done_appids w,
    forallb decodable lines = true ->
    FetchCommon.scan_lines lines line_no done_appids w
    = (Ok (list_to_set (omap line_id lines) ∪ done_appids),
       with_warnings w (malformed_line_numbers lines line_no)).
Proof.
  induction lines as [ | l rest IH ]; intros line_no done_appids w Hdec.
  - simpl. rewrite with_warnings_nil. unfold mret, M_ret, ret.
    do 2 f_equal. set_solver.
  - simpl in Hdec. apply andb_true_iff in Hdec as [Hl Hrest].
    destruct l as [ | | | obj ]; [discriminate | | | ].
    + simpl. rewrite IH by exact Hrest. reflexivity.
    + cbn [FetchCommon.scan_lines]. unfold mbind, M_bind, bind.
      unfold log_warn_skip_invalid at 1. rewrite IH by exact Hrest.
      simpl. f_equal. unfold with_warnings. simpl. now rewrite <- app_assoc.
    + destruct obj as [ | | | | | | [ | [key v] [ | kv2 more ] ] ];
        try (simpl; rewrite IH by exact Hrest; reflexivity).
      cbn [FetchCommon.scan_lines]. simpl.
      destruct (int_of_str key) as [appid | ].
      * rewrite IH by exact Hrest. simpl. do 2 f_equal. set_solver.
      * unfold mbind, M_bind, bind.
        unfold log_warn_skip_invalid at 1. rewrite IH by exact Hrest.
        simpl. f_equal. unfold with_warnings. simpl.
        now rewrite <- app_assoc.
Qed.

Lemma load_done_decodable w f :
  out_file w = Some f ->
  forallb decodable (file_lines f) = true ->
  FetchCommon.load_done_appids_from_jsonl w
  = (Ok (list_to_set (record_ids f)),
     with_warnings w (malformed_line_numbers (file_lines f) 1)).
Proof.
  intros Hf Hdec. unfold FetchCommon.load_done_appids_from_jsonl.
  rewrite Hf, scan_lines_decodable by exact Hdec.
  do 2 f_equal. unfold record_ids. set_solver.
Qed.

Lemma load_done_missing w :
  out_file w = None ->
  FetchCommon.load_done_appids_from_jsonl w = (Ok ∅, w).
Proof.
  intros Hf. unfold FetchCommon.load_done_appids_from_jsonl. now rewrite Hf.
Qed.

(** C6 fails on an output file whose last line was cut inside a
    character of several bytes. The file is opened with
    [encoding="utf-8"], the iteration over the handle decodes it
    strictly, and the iteration is outside the [try]: the scan raises
    [UnicodeDecodeError] although the line before is a well-formed
    record, where the claim has the scan never raise and skip a truncated
    final line. When the cut falls between two characters the final line
    is text that is not JSON, and the scan does what the claim says: it
    returns the identifier of the line before and warns about line 2. *)
Theorem scan_raises_on_undecodable_tail :
  let record := LJson (JObj [("1", JObj [])]) in
  let cut_inside := start_world 0 (Some (mkFile [record] (Some LUndecodable))) in
  let cut_between := start_world 0 (Some (mkFile [record] (Some LInvalid))) in
  fst (FetchCommon.load_done_appids_from_jsonl cut_inside)
  = Raise UnicodeDecodeError
  /\ FetchCommon.load_done_appids_from_jsonl cut_between
     = (Ok {[ 1 ]}, with_warnings cut_between [2%nat]).
Proof.
  intros record cut_inside cut_between. split.
  - reflexivity.
  - rewrite (load_done_decodable cut_between
               (mkFile [record] (Some LInvalid))) by reflexivity.
    reflexivity.
Qed.

(** ** The fetch loop (claim C1) *)

Lemma is_None_true v : is_None v = true -> v = JNull.
Proof. now destruct v. Qed.





(** ** What a fetch leaves alone *)














(** ** The records the two builders return *)

#[local] Arguments FetchCommon.normalize_date : simpl never.
#[local] Arguments FetchStoreRaw.drop_blacklisted_fields : simpl never.
#[local] Arguments py_str : simpl never.

Lemma bind_Ok {A B} (m : M A) (k : A -> M B) w b w' :
  bind m k w = (Ok b, w') ->
  exists a w1, m w = (Ok a, w1) /\ k a w1 = (Ok b, w').
Proof.
  unfold bind. destruct (m w) as [[a | e] w1]; [ | discriminate ].
  intros Hk. now exists a, w1.
Qed.




Lemma http_get_json_answer env u limiter retries timeout w body payload :
  0 < retries ->
  env_server env (length (requested w)) u = Response body (Some payload) ->
  exists w2,
    FetchCommon.http_get_json env u limiter retries timeout w
    = (Ok payload, w2)
    /\ requested w2 = requested w ++ [u]
    /\ out_file w2 = out_file w
    /\ skip_warnings w2 = skip_warnings w.
Proof.
  intros Hpos Hout. unfold FetchCommon.http_get_json.
  destruct (Z.to_nat retries) as [ | n ] eqn:Hn; [lia | ].
  now apply common_attempt_success with (body := body).
Qed.






(** ** Resuming (claim C2) *)





Lemma str_int_inj a b : str_int a = str_int b -> a = b.
Proof.
  intros Heq. pose proof (int_of_str_str_int a) as Ha.
  rewrite Heq, int_of_str_str_int in Ha. congruence.
Qed.






(** * Further properties of the scripts *)

(** ** [apply_index_range] *)

(** X1. [apply_index_range] raises, and then a [ValueError], exactly when
    the start index is negative, the end index is neither -1 nor at
    least the start index, or [top_n] is negative. Otherwise entry [j]
    of the result is entry [start_index + j] of the list, for the [j]
    below [end_index - start_index] (when the end index is not -1) and
    below [top_n] (when [top_n] is positive); the result takes its
    entries from the list in their order, so it repeats no identifier
    the list does not repeat. *)
Theorem apply_index_range_selects
  (appids : list Z) (start_index end_index top_n : Z) :
  match FetchCommon.apply_index_range appids start_index end_index top_n with
  | Raise e =>
      (start_index < 0
       \/ (end_index <> -1 /\ end_index < start_index)
       \/ top_n < 0)
      /\ exists msg, e = ValueError msg
  | Ok sliced =>
      0 <= start_index
      /\ (end_index = -1 \/ start_index <= end_index)
      /\ 0 <= top_n
      /\ (forall j : nat,
             sliced !! j
             = if bool_decide
                    ((end_index = -1
                      \/ (Z.to_nat start_index + j < Z.to_nat end_index)%nat)
                     /\ (top_n = 0 \/ (j < Z.to_nat top_n)%nat))
               then appids !! (Z.to_nat start_index + j)%nat
               else None)
      /\ sliced `sublist_of` appids
      /\ (NoDup appids -> NoDup sliced)
  end.
Proof.
  unfold FetchCommon.apply_index_range.
  destruct (Z.ltb_spec start_index 0) as [Hs | Hs];
    [split; [lia | eauto] | ].
  destruct (Z.eqb_spec end_index (-1)) as [He | He]; simpl.
  - destruct (Z.ltb_spec top_n 0) as [Ht | Ht]; [split; [lia | eauto] | ].
    assert (forall sliced : list Z,
               sliced `sublist_of` appids ->
               (NoDup appids -> NoDup sliced)) as Hnd.
    { intros sliced Hsub Hnd. eapply sublist_NoDup; eassumption. }
    destruct (Z.ltb_spec 0 top_n) as [Hp | Hp].
    + split_and!; [lia | now left | lia | | | ].
      * intros j. rewrite lookup_take, lookup_drop.
        case_decide; case_bool_decide; try reflexivity; exfalso; lia.
      * etransitivity; [apply sublist_take | apply sublist_drop].
      * apply Hnd. etransitivity; [apply sublist_take | apply sublist_drop].
    + split_and!; [lia | now left | lia | | | ].
      * intros j. rewrite lookup_drop.
        case_bool_decide; [reflexivity | exfalso; lia].
      * apply sublist_drop.
      * apply Hnd, sublist_drop.
  - destruct (Z.ltb_spec end_index start_index) as [Hes | Hes];
      [split; [lia | eauto] | ].
    destruct (Z.ltb_spec top_n 0) as [Ht | Ht]; [split; [lia | eauto] | ].
    assert (forall sliced : list Z,
               sliced `sublist_of` appids ->
               (NoDup appids -> NoDup sliced)) as Hnd.
    { intros sliced Hsub Hnd. eapply sublist_NoDup; eassumption. }
    assert (drop (Z.to_nat start_index) (take (Z.to_nat end_index) appids)
              `sublist_of` appids) as Hsub.
    { etransitivity; [apply sublist_drop | apply sublist_take]. }
    destruct (Z.ltb_spec 0 top_n) as [Hp | Hp].
    + split_and!; [lia | now right | lia | | | ].
      * intros j. rewrite lookup_take, lookup_drop, lookup_take.
        repeat case_decide; case_bool_decide; try reflexivity; exfalso; lia.
      * etransitivity; [apply sublist_take | exact Hsub].
      * apply Hnd. etransitivity; [apply sublist_take | exact Hsub].
    + split_and!; [lia | now right | lia | | exact Hsub | apply Hnd, Hsub].
      intros j. rewrite lookup_drop, lookup_take.
      case_decide; case_bool_decide; try reflexivity; exfalso; lia.
Qed.

(** ** [normalize_date] *)



(** ** The transforms applied twice *)

Lemma dict_set_keys key v d :
  NoDup (map fst d) -> NoDup (map fst (dict_set key v d)).
Proof.
  induction d as [ | [k old] rest IH ]; simpl; intros Hnd.
  - apply NoDup_singleton.
  - apply NoDup_cons in Hnd as [Hfresh Hnd].
    destruct (String.eqb_spec k key) as [-> | Hne]; simpl.
    + now apply NoDup_cons.
    + apply NoDup_cons. split; [ | now apply IH ].
      intros Hin. apply Hfresh. clear - Hin Hne.
      induction rest as [ | [k1 o1] rest IH ]; simpl in *.
      * apply list_elem_of_singleton in Hin. congruence.
      * destruct (String.eqb_spec k1 key) as [-> | Hne1]; simpl in *;
          [exact Hin | ].
        apply elem_of_cons in Hin as [-> | Hin]; [now left | ].
        right. now apply IH.
Qed.

Lemma fold_items_keys (g : string * json -> json) fields acc :
  NoDup (map fst acc) ->
  NoDup (map fst (fold_left (fun out kv => if is_None (g kv) then out
                                           else dict_set (fst kv) (g kv) out)
                    fields acc)).
Proof.
  revert acc. induction fields as [ | kv rest IH ]; intros acc Hnd; simpl.
  - exact Hnd.
  - apply IH. destruct (is_None (g kv)); [exact Hnd | ].
    now apply dict_set_keys.
Qed.

Lemma json_wf_None v : is_None v = true -> json_wf v = true.
Proof. now destruct v. Qed.

Lemma prune_wf v : json_wf (FetchGames.prune_store_payload v) = true.
Proof.
  induction v as [ | b | z | f | s | items IH | fields IH ]
    using json_induction; try reflexivity.
  - simpl. now destruct (_ <? _)%nat.
  - rewrite prune_arr. destruct (overlong _); [reflexivity | ].
    simpl. apply forallb_Forall_true, kept_items_Forall.
    eapply Forall_impl; [exact IH | ]. simpl. auto.
  - simpl. apply andb_true_iff. split.
    + apply bool_decide_eq_true.
      apply (fold_items_keys
               (fun kv => FetchGames.prune_store_payload (snd kv))).
      constructor.
    + apply forallb_Forall_true.
      apply (fold_items_Forall (fun kv => json_wf (snd kv) = true)
               (fun kv => FetchGames.prune_store_payload (snd kv)));
        [ | constructor ].
      eapply Forall_impl; [exact IH | ]. simpl. auto.
Qed.

(** X3. Pruning twice is pruning once: what [prune_store_payload]
    returns is left unchanged by a second pass, for every value. *)
Theorem prune_store_payload_idempotent (v : json) :
  FetchGames.prune_store_payload (FetchGames.prune_store_payload v)
  = FetchGames.prune_store_payload v.
Proof.
  pose proof (prune_null_free v) as Hnf.
  pose proof (prune_within_caps v) as Hcaps.
  pose proof (prune_wf v) as Hwf.
  destruct (is_None (FetchGames.prune_store_payload v)) eqn:Hnone.
  - apply is_None_true in Hnone. now rewrite Hnone.
  - apply prune_unchanged; assumption.
Qed.

Lemma drop_wf v blacklist path_parts :
  json_wf (FetchStoreRaw.drop_blacklisted_fields v blacklist path_parts)
  = true.
Proof.
  revert path_parts.
  induction v as [ | b | z | f | s | items IH | fields IH ]
    using json_induction; intros path_parts;
    destruct (blacklisted blacklist path_parts) eqn:Hb;
    try (rewrite drop_on_blacklisted by exact Hb; reflexivity);
    try (unfold blacklisted in Hb;
         unfold FetchStoreRaw.drop_blacklisted_fields;
         rewrite Hb; reflexivity).
  - rewrite drop_arr by exact Hb. simpl.
    apply forallb_Forall_true, kept_items_Forall.
    eapply Forall_impl; [exact IH | ]. simpl. auto.
  - unfold blacklisted in Hb.
    unfold FetchStoreRaw.drop_blacklisted_fields.
    fold FetchStoreRaw.drop_blacklisted_fields. rewrite Hb. simpl.
    apply andb_true_iff. split.
    + apply bool_decide_eq_true.
      apply (fold_items_keys
               (fun kv => FetchStoreRaw.drop_blacklisted_fields (snd kv)
                            blacklist (path_parts ++ [fst kv]))).
      constructor.
    + apply forallb_Forall_true.
      apply (fold_items_Forall (fun kv => json_wf (snd kv) = true)
               (fun kv => FetchStoreRaw.drop_blacklisted_fields (snd kv)
                            blacklist (path_parts ++ [fst kv])));
        [ | constructor ].
      eapply Forall_impl; [exact IH | ]. simpl. auto.
Qed.

(** X4. Redacting twice is redacting once: what
    [drop_blacklisted_fields] returns for a blacklist and a path is left
    unchanged by a second pass with the same blacklist and path, for
    every value. *)
Theorem drop_blacklisted_fields_idempotent
  (v : json) (blacklist : gset string) (path_parts : list string) :
  FetchStoreRaw.drop_blacklisted_fields
    (FetchStoreRaw.drop_blacklisted_fields v blacklist path_parts)
    blacklist path_parts
  = FetchStoreRaw.drop_blacklisted_fields v blacklist path_parts.
Proof.
  pose proof (drop_null_free v blacklist path_parts) as Hnf.
  pose proof (drop_clean v blacklist path_parts) as Hclean.
  pose proof (drop_wf v blacklist path_parts) as Hwf.
  destruct (is_None
              (FetchStoreRaw.drop_blacklisted_fields v blacklist path_parts))
    eqn:Hnone.
  - apply is_None_true in Hnone. rewrite Hnone.
    pose proof (drop_None JNull blacklist path_parts) as Hnull.
    rewrite orb_true_r in Hnull. now apply is_None_true in Hnull.
  - apply drop_unchanged; assumption.
Qed.

(** ** [http_get_json]: retries *)


Lemma doubled_nonneg backoff k : (0 <= backoff)%Q -> (0 <= doubled backoff k)%Q.
Proof.
  revert backoff. induction k as [ | k IH ]; intros backoff Hb; simpl;
    [exact Hb | ]. apply IH. lra.
Qed.


Lemma games_attempt_success env retry_limit u timeout n backoff w
  body payload :
  env_server env (length (requested w)) u = Response body (Some payload) ->
  exists w2,
    FetchGames.http_get_json_loop env retry_limit u timeout (S n) backoff w
    = (Ok payload, w2)
    /\ requested w2 = requested w ++ [u]
    /\ out_file w2 = out_file w
    /\ skip_warnings w2 = skip_warnings w.
Proof.
  intros Hout.
  destruct (wait_frame env (FetchGames.choose_limiter u) w)
    as (waited & Hw & Hreq & _ & Hf & Hsk).
  cbn [FetchGames.http_get_json_loop].
  unfold mbind, M_bind, bind, urlopen. rewrite Hw, Hreq, Hout.
  eexists. split; [reflexivity | ]. simpl. rewrite Hf, Hsk. done.
Qed.






(** X7. Only [HTTPError] and [URLError] are caught: when [urlopen] or
    the reading of the body raises anything else (a time-out while the
    body is read, for one), both versions of [http_get_json] let it
    through at once, on whichever attempt it happens: one request is
    sent, no backoff sleep is made, no random number is drawn and no
    further attempt follows. *)
Theorem http_get_json_other_exception_not_retried
  (env : Env) (u : url) (limiter : limiter_ref) (retries timeout : Z)
  (n : nat) (backoff : Q) (w : World) (name : string) :
  env_server env (length (requested w)) u = RaisesOther name ->
  (exists w2,
      FetchCommon.http_get_json_loop env u limiter retries timeout (S n)
        backoff w
      = (Raise (OtherException name), w2)
      /\ requested w2 = requested w ++ [u]
      /\ slept w2 = slept (snd (wait env limiter w))
      /\ draws w2 = draws w)
  /\ (exists w2,
         FetchGames.http_get_json_loop env retries u timeout (S n) backoff w
         = (Raise (OtherException name), w2)
         /\ requested w2 = requested w ++ [u]
         /\ slept w2 = slept (snd (wait env (FetchGames.choose_limiter u) w))
         /\ draws w2 = draws w).
Proof.
  intros Hout. split.
  - destruct (wait_frame env limiter w) as (waited & Hw & Hreq & Hdr & _).
    cbn [FetchCommon.http_get_json_loop].
    unfold mbind, M_bind, bind, urlopen. rewrite Hw, Hreq, Hout.
    eexists. split; [reflexivity | ]. simpl. rewrite Hdr. done.
  - destruct (wait_frame env (FetchGames.choose_limiter u) w)
      as (waited & Hw & Hreq & Hdr & _).
    cbn [FetchGames.http_get_json_loop].
    unfold mbind, M_bind, bind, urlopen. rewrite Hw, Hreq, Hout.
    eexists. split; [reflexivity | ]. simpl. rewrite Hdr. done.
Qed.

Lemma http_get_json_other_exception_not_retried_witness :
  let env := quiet_env (fun _ _ => RaisesOther "TimeoutError") in
  let run := FetchCommon.http_get_json env (spy_url 10) main_limiter 3 25
               (start_world 0 None) in
  fst run = Raise (OtherException "TimeoutError")
  /\ requested (snd run) = [spy_url 10].
Proof.
  intros env run.
  destruct (http_get_json_other_exception_not_retried env (spy_url 10)
              main_limiter 3 25 2 1%Q (start_world 0 None) "TimeoutError")
    as [(w2 & Hrun & Hreq & _) _]; [reflexivity | ].
  unfold run, FetchCommon.http_get_json.
  change (Z.to_nat 3) with 3%nat. rewrite Hrun. split; [reflexivity | ].
  exact Hreq.
Defined.

(** ** The limiters of [fetch_games.py] *)

Lemma keeps_ret r {A} (a : A) : keeps_limiter r (ret a).
Proof. now intros w. Qed.

Lemma keeps_raise r {A} e : keeps_limiter r (@raise A e).
Proof. now intros w. Qed.

Lemma keeps_bind r {A B} (m : M A) (k : A -> M B) :
  keeps_limiter r m -> (forall a, keeps_limiter r (k a)) ->
  keeps_limiter r (bind m k).
Proof.
  intros Hm Hk w. unfold bind. specialize (Hm w).
  destruct (m w) as [[a | e] w1]; simpl in *; [ | exact Hm ].
  now rewrite (Hk a w1).
Qed.

Lemma keeps_sleep env r secs : keeps_limiter r (sleep env secs).
Proof. intros w. unfold sleep. now destruct (Qltb secs 0). Qed.

Lemma keeps_random env r : keeps_limiter r (random env).
Proof. now intros w. Qed.

Lemma keeps_urlopen env r u timeout : keeps_limiter r (urlopen env u timeout).
Proof. now intros w. Qed.

Lemma keeps_wait env r self : r <> self -> keeps_limiter r (wait env self).
Proof.
  intros Hne w. rewrite wait_run.
  destruct (Qltb _ _); simpl; now rewrite decide_False.
Qed.

Lemma wait_min_interval env self r w :
  min_interval (limiters (snd (wait env self w)) r)
  = min_interval (limiters w r).
Proof.
  rewrite wait_run.
  destruct (Qltb _ _); simpl; case_decide; subst; reflexivity.
Qed.

Ltac keeps_tac :=
  repeat first
    [ apply keeps_ret | apply keeps_raise | apply keeps_sleep
    | apply keeps_random | apply keeps_urlopen
    | apply keeps_bind; [ | intros ? ]
    | match goal with
      | |- keeps_limiter _ (mbind _ _) => unfold mbind, M_bind
      | |- keeps_limiter _ (mret _) => unfold mret, M_ret
      | |- keeps_limiter _ (if ?b then _ else _) => destruct b
      | |- keeps_limiter _ (match ?x with _ => _ end) => destruct x
      end ].

Lemma keeps_games_loop env retry_limit u timeout r n :
  r <> FetchGames.choose_limiter u ->
  forall backoff,
    keeps_limiter r
      (FetchGames.http_get_json_loop env retry_limit u timeout n backoff).
Proof.
  intros Hne. induction n as [ | n IH ]; intros backoff;
    cbn [FetchGames.http_get_json_loop].
  - apply keeps_raise.
  - unfold mbind, M_bind. apply keeps_bind; [now apply keeps_wait | ].
    intros waited. keeps_tac; apply IH.
Qed.

(** X8. In [fetch_games.py] each source has its own limiter: the url of
    [fetch_store_meta] is throttled by [store_limiter] and the url of
    [fetch_spy_details] by [steamspy_limiter], for every identifier and
    country code, while a [request=all] url of steamspy.com goes to
    [steamspy_all_limiter]. However a fetch ends, a store fetch leaves
    the two steamspy limiters as they were and a steamspy fetch leaves
    the store limiter as it was, so pacing one source never delays the
    other. *)
Theorem fetch_games_limiters_are_separate
  (env : Env) (retry_limit : Z) (appid : Z) (cc page : string) (w : World) :
  FetchGames.choose_limiter (store_url appid cc) = store_limiter
  /\ FetchGames.choose_limiter (spy_url appid) = steamspy_limiter
  /\ FetchGames.choose_limiter
       (mkUrl "steamspy.com" "/api.php" [("request", "all"); ("page", page)])
     = steamspy_all_limiter
  /\ (let w' := snd (FetchGames.fetch_store_meta env retry_limit appid cc w) in
      limiters w' steamspy_limiter = limiters w steamspy_limiter
      /\ limiters w' steamspy_all_limiter = limiters w steamspy_all_limiter)
  /\ (let w' := snd (FetchGames.fetch_spy_details env retry_limit appid w) in
      limiters w' store_limiter = limiters w store_limiter
      /\ limiters w' steamspy_all_limiter = limiters w steamspy_all_limiter).
Proof.
  split_and!; try reflexivity.
  - split.
    + apply (keeps_games_loop env retry_limit (store_url appid cc) 25
               steamspy_limiter (Z.to_nat retry_limit)); discriminate.
    + apply (keeps_games_loop env retry_limit (store_url appid cc) 25
               steamspy_all_limiter (Z.to_nat retry_limit)); discriminate.
  - split.
    + apply (keeps_games_loop env retry_limit (spy_url appid) 25
               store_limiter (Z.to_nat retry_limit)); discriminate.
    + apply (keeps_games_loop env retry_limit (spy_url appid) 25
               steamspy_all_limiter (Z.to_nat retry_limit)); discriminate.
Qed.

(** ** The records of [fetch_store_raw.py] and [fetch_steamspy_raw.py] *)

Lemma dict_has_elem key d :
  dict_has key d = true -> exists v, (key, v) ∈ d.
Proof.
  induction d as [ | [k v] rest IH ]; simpl; [discriminate | ].
  destruct (String.eqb_spec k key) as [-> | _]; simpl.
  - intros _. exists v. now left.
  - intros H. destruct (IH H) as (v' & Hin). exists v'. now right.
Qed.

Lemma dict_get_elem key d v :
  dict_get key d = v -> is_None v = false -> (key, v) ∈ d.
Proof.
  induction d as [ | [k v0] rest IH ]; simpl.
  - intros <-. discriminate.
  - destruct (String.eqb_spec k key) as [-> | _].
    + intros <- _. now left.
    + intros Hget Hsome. right. now apply IH.
Qed.

Lemma build_store_record_shape env appid cc limiter retries timeout w
  record w' :
  FetchStoreRaw.build_store_record env appid cc limiter retries timeout w
  = (Ok record, w') ->
  record = JNull
  \/ exists one name date,
       truthy (dict_get "success" one) = true
       /\ record
          = JObj [(str_int appid,
                   JObj [("appId", JInt appid);
                         ("name", JStr name);
                         ("releaseDate", JStr date);
                         ("payload",
                          FetchStoreRaw.drop_blacklisted_fields (JObj one)
                            FetchStoreRaw.FIELD_BLACKLIST [])])].
Proof.
  unfold FetchStoreRaw.build_store_record, mbind, M_bind. intros Hrun.
  apply bind_Ok in Hrun as (store_all & w1 & _ & Hrest).
  destruct (match store_all with
            | JObj fields => dict_get_default (str_int appid) (JObj []) fields
            | _ => JObj []
            end) as [ | | | | | | one ];
    try (injection Hrest as <- _; now left).
  destruct (truthy (dict_get "success" one)) eqn:Hsuccess; simpl in Hrest;
    [ | injection Hrest as <- _; now left ].
  apply bind_Ok in Hrest as (release_date & w2 & _ & Hret).
  injection Hret as <- _. right. eexists one, _, _. split; [exact Hsuccess | ].
  reflexivity.
Qed.

Lemma drop_root_object one blacklist :
  exists payload_fields,
    FetchStoreRaw.drop_blacklisted_fields (JObj one) blacklist []
    = JObj payload_fields.
Proof. eexists. reflexivity. Qed.

(** X9. A record [build_store_record] returns is the single-key object
    [{str(appid): {"appId", "name", "releaseDate", "payload"}}] for an
    answer of the store whose success flag holds. Its payload holds no
    [null] and none of the five blacklisted description fields: whatever
    the store sent, the [data] object of the payload has no key
    [detailed_description], [about_the_game], [short_description],
    [extended_description] or [legal_notice]. *)
Theorem build_store_record_redacts
  (env : Env) (appid : Z) (cc : string) (limiter : limiter_ref)
  (retries timeout : Z) (w w' : World) (record : json) :
  FetchStoreRaw.build_store_record env appid cc limiter retries timeout w
  = (Ok record, w') ->
  is_None record = false ->
  exists one name date payload_fields,
    truthy (dict_get "success" one) = true
    /\ FetchStoreRaw.drop_blacklisted_fields (JObj one)
         FetchStoreRaw.FIELD_BLACKLIST [] = JObj payload_fields
    /\ record
       = JObj [(str_int appid,
                JObj [("appId", JInt appid);
                      ("name", JStr name);
                      ("releaseDate", JStr date);
                      ("payload", JObj payload_fields)])]
    /\ null_free (JObj payload_fields) = true
    /\ forall data_fields key,
         dict_get "data" payload_fields = JObj data_fields ->
         key ∈ ["detailed_description"; "about_the_game";
                "short_description"; "extended_description";
                "legal_notice"] ->
         dict_has key data_fields = false.
Proof.
  intros Hrun Hsome.
  destruct (build_store_record_shape _ _ _ _ _ _ _ _ _ Hrun)
    as [-> | (one & name & date & Hsuccess & ->)]; [discriminate | ].
  pose proof (drop_null_free (JObj one) FetchStoreRaw.FIELD_BLACKLIST [])
    as Hnf.
  pose proof (drop_clean (JObj one) FetchStoreRaw.FIELD_BLACKLIST []) as Hcl.
  destruct (drop_root_object one FetchStoreRaw.FIELD_BLACKLIST)
    as (payload_fields & Hpf).
  rewrite Hpf in Hnf, Hcl. cbn [is_None orb] in Hnf, Hcl.
  exists one, name, date, payload_fields.
  split_and!; [exact Hsuccess | exact Hpf | now rewrite Hpf | exact Hnf | ].
  intros data_fields key Hdata Hkey.
  destruct (dict_has key data_fields) eqn:Hhas; [exfalso | reflexivity].
  apply dict_has_elem in Hhas as (v & Hv).
  apply dict_get_elem in Hdata; [ | reflexivity ].
  cbn [clean_of] in Hcl. apply andb_true_iff in Hcl as [_ Hcl].
  apply forallb_Forall_true in Hcl. rewrite Forall_forall in Hcl.
  specialize (Hcl _ Hdata). cbn [fst snd app clean_of] in Hcl.
  apply andb_true_iff in Hcl as [_ Hcl].
  apply forallb_Forall_true in Hcl. rewrite Forall_forall in Hcl.
  specialize (Hcl _ Hv). cbn [fst snd app] in Hcl.
  assert (blacklisted FetchStoreRaw.FIELD_BLACKLIST ["data"; key] = true)
    as Hb.
  { repeat (apply elem_of_cons in Hkey as [-> | Hkey];
            [vm_compute; reflexivity | ]).
    now apply elem_of_nil in Hkey. }
  destruct v; cbn [clean_of] in Hcl; rewrite Hb in Hcl; discriminate.
Qed.

Lemma build_store_record_redacts_witness :
  exists w' name date payload_fields,
    FetchStoreRaw.build_store_record (quiet_env scenario_server) 10 "us"
      main_limiter 2 25 (start_world 0 None)
    = (Ok (JObj [("10",
                  JObj [("appId", JInt 10);
                        ("name", JStr name);
                        ("releaseDate", JStr date);
                        ("payload", JObj payload_fields)])]), w')
    /\ forall data_fields,
         dict_get "data" payload_fields = JObj data_fields ->
         dict_has "about_the_game" data_fields = false.
Proof.
  destruct (FetchStoreRaw.build_store_record (quiet_env scenario_server) 10
              "us" main_limiter 2 25 (start_world 0 None))
    as [[record | e] w'] eqn:Hrun; [ | vm_compute in Hrun; discriminate ].
  destruct (build_store_record_redacts _ _ _ _ _ _ _ _ _ Hrun)
    as (one & name & date & payload_fields & _ & _ & -> & _ & Hkeys).
  - vm_compute in Hrun. injection Hrun as <- _. reflexivity.
  - exists w', name, date, payload_fields. split; [reflexivity | ].
    intros data_fields Hdata. apply (Hkeys data_fields); [exact Hdata | ].
    apply (bool_decide_unpack _). vm_compute. exact I.
Defined.

(** X10. [build_spy_record] keeps the payload of steamspy as it is.
    When steamspy answers the request with a JSON document: an answer
    that is not an object, or is the empty object, gives [None] (no
    data); for any other object the record is
    [{str(appid): {"appId", "name", "releaseDate", "payload"}}] with the
    answer itself, untouched, as the payload, unless [normalize_date]
    raises on its [release_date], in which case that exception is what
    the builder raises. One request is sent either way. *)
Theorem build_spy_record_keeps_payload
  (env : Env) (appid : Z) (limiter : limiter_ref) (retries timeout : Z)
  (w : World) (body : string) (payload : json) :
  0 < retries ->
  env_server env (length (requested w)) (spy_url appid)
  = Response body (Some payload) ->
  let run := FetchSteamspyRaw.build_spy_record env appid limiter retries
               timeout w in
  fst run
  = match payload with
    | JObj [] => Ok JNull
    | JObj fields =>
        match FetchCommon.normalize_date env (dict_get "release_date" fields)
        with
        | Ok date =>
            Ok (JObj [(str_int appid,
                       JObj [("appId", JInt appid);
                             ("name",
                              JStr (py_str env
                                      (py_or (dict_get "name" fields)
                                         (JStr ""))));
                             ("releaseDate", JStr date);
                             ("payload", payload)])])
        | Raise e => Raise e
        end
    | _ => Ok JNull
    end
  /\ requested (snd run) = requested w ++ [spy_url appid]
  /\ out_file (snd run) = out_file w.
Proof.
  intros Hpos Hout run. unfold run.
  destruct (http_get_json_answer env (spy_url appid) limiter retries
              timeout w body payload Hpos Hout)
    as (w2 & Hrun & Hreq & Hfile & _).
  unfold FetchSteamspyRaw.build_spy_record, FetchSteamspyRaw.fetch_spy_details.
  fold (spy_url appid). unfold mbind, M_bind, bind, mret, M_ret, ret, lift.
  rewrite Hrun.
  destruct payload as [ | | | | | | [ | [k0 v0] fields ] ]; simpl;
    try (split_and!; [reflexivity | done..]).
  match goal with
  | |- context [FetchCommon.normalize_date env ?x] =>
      destruct (FetchCommon.normalize_date env x) as [date | e]
  end; simpl; (split_and!; [reflexivity | done..]).
Qed.

Lemma build_spy_record_keeps_payload_witness :
  let payload := JObj [("appid", JInt 10); ("name", JStr "Game");
                       ("owners", JStr "1,000 .. 2,000")] in
  let env := quiet_env (fun _ _ => Response "{...}" (Some payload)) in
  fst (FetchSteamspyRaw.build_spy_record env 10 main_limiter 1 25
         (start_world 0 None))
  = Ok (JObj [("10",
               JObj [("appId", JInt 10); ("name", JStr "Game");
                     ("releaseDate", JStr ""); ("payload", payload)])]).
Proof.
  intros payload env.
  destruct (build_spy_record_keeps_payload env 10 main_limiter 1 25
              (start_world 0 None) "{...}" payload) as (Hrun & _).
  - lia.
  - reflexivity.
  - rewrite Hrun. reflexivity.
Defined.

(** ** The records of [fetch_games.py] *)

Lemma games_http_get_json_answer env retry_limit u timeout w body payload :
  0 < retry_limit ->
  env_server env (length (requested w)) u = Response body (Some payload) ->
  exists w2,
    FetchGames.http_get_json env retry_limit u timeout w = (Ok payload, w2)
    /\ requested w2 = requested w ++ [u]
    /\ out_file w2 = out_file w
    /\ skip_warnings w2 = skip_warnings w.
Proof.
  intros Hpos Hout. unfold FetchGames.http_get_json.
  destruct (Z.to_nat retry_limit) as [ | n ] eqn:Hn; [lia | ].
  now apply games_attempt_success with (body := body).
Qed.

(** X11. [build_raw_record] of [fetch_games.py], when the store answers
    with a JSON document that reports no success for the identifier (the
    answer is not an object, has no entry for the identifier, the entry
    is not an object, or its [success] is missing or falsy): the result
    is [None], and steamspy is not asked: the request to the store is
    the only one sent. *)
Theorem build_raw_record_skips_without_asking_steamspy
  (env : Env) (RETRY_LIMIT appid : Z) (cc : string) (w : World)
  (body : string) (store_all : json) :
  0 < RETRY_LIMIT ->
  env_server env (length (requested w)) (store_url appid cc)
  = Response body (Some store_all) ->
  reports_success appid store_all = false ->
  let run := FetchGames.build_raw_record env RETRY_LIMIT appid cc w in
  fst run = Ok JNull
  /\ requested (snd run) = requested w ++ [store_url appid cc]
  /\ out_file (snd run) = out_file w.
Proof.
  intros Hpos Hout Hflag run. unfold run.
  destruct (games_http_get_json_answer env RETRY_LIMIT (store_url appid cc)
              25 w body store_all Hpos Hout)
    as (w2 & Hrun & Hreq & Hfile & _).
  unfold FetchGames.build_raw_record, FetchGames.fetch_store_meta.
  fold (store_url appid cc). unfold mbind, M_bind, bind, mret, M_ret, ret.
  rewrite Hrun. unfold reports_success in Hflag.
  destruct store_all as [ | | | | | | fields ]; try done.
  destruct (dict_get_default (str_int appid) (JObj []) fields)
    as [ | | | | | | one ]; try done.
  rewrite Hflag. done.
Qed.

Lemma build_raw_record_skips_without_asking_steamspy_witness :
  let answer := JObj [("10", JObj [("success", JBool false)])] in
  let env := quiet_env (fun _ _ => Response "{...}" (Some answer)) in
  let run := FetchGames.build_raw_record env 2 10 "us" (start_world 0 None) in
  fst run = Ok JNull /\ requested (snd run) = [store_url 10 "us"].
Proof.
  intros answer env run.
  destruct (build_raw_record_skips_without_asking_steamspy env 2 10 "us"
              (start_world 0 None) "{...}" answer)
    as (Hrun & Hreq & _); [lia | reflexivity | reflexivity | ].
  split; [exact Hrun | exact Hreq].
Defined.

(** X12. [build_raw_record] of [fetch_games.py], when the store answers
    with a document that reports success for the identifier and steamspy
    answers the next request with a JSON document: the record is
    [{str(appid): {"from_store": ..., "from_spy": ...}}], with the
    store's entry for the identifier pruned by [prune_store_payload] and
    the answer of steamspy as it came, whatever its shape; two requests
    are sent, the store's first. *)
Theorem build_raw_record_joins_both_answers
  (env : Env) (RETRY_LIMIT appid : Z) (cc : string) (w : World)
  (body spy_body : string) (store_all spy_raw : json) :
  0 < RETRY_LIMIT ->
  env_server env (length (requested w)) (store_url appid cc)
  = Response body (Some store_all) ->
  reports_success appid store_all = true ->
  env_server env (S (length (requested w))) (spy_url appid)
  = Response spy_body (Some spy_raw) ->
  let run := FetchGames.build_raw_record env RETRY_LIMIT appid cc w in
  exists fields,
    store_all = JObj fields
    /\ fst run
       = Ok (JObj [(str_int appid,
                    JObj [("from_store",
                           FetchGames.prune_store_payload
                             (dict_get (str_int appid) fields));
                          ("from_spy", spy_raw)])])
    /\ requested (snd run)
       = requested w ++ [store_url appid cc; spy_url appid]
    /\ out_file (snd run) = out_file w.
Proof.
  intros Hpos Hout Hflag Hspy run. unfold run.
  destruct (games_http_get_json_answer env RETRY_LIMIT (store_url appid cc)
              25 w body store_all Hpos Hout)
    as (w2 & Hrun & Hreq & Hfile & _).
  destruct (games_http_get_json_answer env RETRY_LIMIT (spy_url appid)
              25 w2 spy_body spy_raw Hpos)
    as (w3 & Hrun3 & Hreq3 & Hfile3 & _).
  { rewrite Hreq, length_app, Nat.add_comm. exact Hspy. }
  unfold FetchGames.build_raw_record, FetchGames.fetch_store_meta,
    FetchGames.fetch_spy_details.
  fold (store_url appid cc). fold (spy_url appid).
  unfold mbind, M_bind, bind, mret, M_ret, ret.
  rewrite Hrun. unfold reports_success in Hflag.
  destruct store_all as [ | | | | | | fields ]; try done.
  exists fields. split; [reflexivity | ].
  assert (dict_get_default (str_int appid) (JObj []) fields
          = dict_get (str_int appid) fields) as Hget.
  { unfold dict_get_default in *.
    destruct (dict_has (str_int appid) fields); [reflexivity | done]. }
  rewrite Hget in *.
  destruct (dict_get (str_int appid) fields) as [ | | | | | | one ] eqn:Hone;
    try done.
  rewrite Hflag. cbn [negb]. rewrite Hrun3. cbn [fst snd].
  split_and!; [reflexivity | | congruence].
  rewrite Hreq3, Hreq, <- app_assoc. reflexivity.
Qed.

Lemma build_raw_record_joins_both_answers_witness :
  let store := JObj [("10", JObj [("success", JBool true);
                                  ("data", JObj [("name", JStr "Game");
                                                 ("dlc", JNull)])])] in
  let spy := JArr [] in
  let env := quiet_env (fun n _ => Response "{...}"
                          (Some (if (n =? 0)%nat then store else spy))) in
  fst (FetchGames.build_raw_record env 2 10 "us" (start_world 0 None))
  = Ok (JObj [("10",
               JObj [("from_store",
                      JObj [("success", JBool true);
                            ("data", JObj [("name", JStr "Game")])]);
                     ("from_spy", JArr [])])]).
Proof.
  intros store spy env.
  destruct (build_raw_record_joins_both_answers env 2 10 "us"
              (start_world 0 None) "{...}" "{...}" store spy)
    as (fields & Hshape & Hrun & _); [lia | reflexivity.. | ].
  injection Hshape as <-. rewrite Hrun. reflexivity.
Defined.

(** ** The identifier list of [fetch_games.py] *)

(** X13. [load_local_appids(path, top_n)] of [fetch_games.py] against
    the two functions of [fetch_common.py]: it raises what
    [load_local_appids(path)] raises; for a [top_n] that is not negative
    it returns what [apply_index_range(appids, 0, -1, top_n)] returns on
    the list loaded; for a negative [top_n], which [apply_index_range]
    refuses, it returns the whole list. *)
Theorem games_load_local_appids_top_n (file : option document) (top_n : Z) :
  match FetchCommon.load_local_appids file with
  | Raise e => FetchGames.load_local_appids file top_n = Raise e
  | Ok appids =>
      if top_n <? 0
      then FetchGames.load_local_appids file top_n = Ok appids
           /\ FetchCommon.apply_index_range appids 0 (-1) top_n
              = Raise (ValueError "top-n must be >= 0")
      else FetchGames.load_local_appids file top_n
           = FetchCommon.apply_index_range appids 0 (-1) top_n
  end.
Proof.
  unfold FetchGames.load_local_appids, FetchCommon.load_local_appids,
    FetchCommon.apply_index_range.
  destruct file as [ [ | | data ] | ]; try reflexivity.
  match goal with
  | |- context [match ?src with Some _ => _ | None => _ end] =>
      destruct src as [ source | ]
  end; [ | reflexivity ].
  cbn [Z.ltb Z.compare Z.eqb negb andb Z.to_nat drop].
  destruct (top_n <? 0) eqn:Hneg.
  - split; [ | reflexivity ].
    destruct (0 <? top_n) eqn:Hpos; [lia | reflexivity].
  - reflexivity.
Qed.

(** ** [main] before its loop *)

Lemma scan_lines_keeps lines :
  forall line_no done_appids w,
    let r := FetchCommon.scan_lines lines line_no done_appids w in
    requested (snd r) = requested w
    /\ out_file (snd r) = out_file w
    /\ slept (snd r) = slept w
    /\ forall e, fst r = Raise e -> e = UnicodeDecodeError.
Proof.
  induction lines as [ | l rest IH ]; intros line_no done_appids w; simpl.
  - split_and!; try done.
  - destruct l as [ | | | obj ].
    + simpl. split_and!; try done. intros e [= <-]. reflexivity.
    + apply IH.
    + unfold mbind, M_bind, bind, log_warn_skip_invalid. simpl.
      specialize (IH (S line_no) done_appids
                    (with_warnings w [line_no])).
      exact IH.
    + destruct obj as [ | | | | | | [ | [key v] [ | kv2 fields ] ] ];
        try apply IH.
      destruct (int_of_str key); [apply IH | ].
      unfold mbind, M_bind, bind, log_warn_skip_invalid. simpl.
      specialize (IH (S line_no) done_appids
                    (with_warnings w [line_no])).
      exact IH.
Qed.



(** ** What the loop writes *)





(** ** Lists without repetitions *)

Lemma keep_first_elem {A} `{EqDecision A} (l : list A) (x : A) :
  x ∈ keep_first l <-> x ∈ l.
Proof.
  induction l as [ | y l IH ]; simpl; [done | ].
  rewrite !elem_of_cons, list_elem_of_filter, IH.
  destruct (decide (x = y)); naive_solver.
Qed.

Lemma keep_first_NoDup {A} `{EqDecision A} (l : list A) :
  NoDup (keep_first l).
Proof.
  induction l as [ | y l IH ]; simpl; [constructor | ].
  apply NoDup_cons. split.
  - rewrite list_elem_of_filter. naive_solver.
  - now apply NoDup_filter.
Qed.

Lemma filter_map {A B} (P : B -> Prop) `{forall y, Decision (P y)}
  (f : A -> B) (l : list A) :
  filter P (map f l) = map f (filter (fun x => P (f x)) l).
Proof.
  induction l as [ | x l IH ]; [reflexivity | ]. simpl.
  rewrite !filter_cons, IH. now destruct (decide (P (f x))).
Qed.

Lemma keep_first_map {A B} `{EqDecision A} `{EqDecision B} (f : A -> B)
  (l : list A) :
  (forall x y, f x = f y -> x = y) ->
  keep_first (map f l) = map f (keep_first l).
Proof.
  intros Hinj. induction l as [ | x l IH ]; [reflexivity | ]. simpl.
  rewrite IH, filter_map. f_equal. f_equal.
  apply list_filter_iff. intros y. split; [congruence | ].
  intros Hne Heq. apply Hne. now apply Hinj.
Qed.

Lemma filter_notin_nil {A} `{EqDecision A} (l : list A) :
  filter (fun y => y ∉ ([] : list A)) l = l.
Proof.
  induction l as [ | x l IH ]; [reflexivity | ].
  rewrite filter_cons_True; [now rewrite IH | ]. apply not_elem_of_nil.
Qed.

(** The loop with the two variables [out] and [seen]: what it appends
    is the first occurrence of every candidate not yet in [out]. *)
Lemma seen_fold {A K} `{Countable K} (cand : A -> option K)
  (step : list K * gset K -> A -> list K * gset K) :
  (forall out seen item,
      step (out, seen) item
      = match cand item with
        | None => (out, seen)
        | Some k =>
            if bool_decide (k ∈ seen) then (out, seen)
            else (out ++ [k], {[ k ]} ∪ seen)
        end) ->
  forall items out seen,
    (forall x, x ∈ seen <-> x ∈ out) ->
    let r := fold_left step items (out, seen) in
    fst r = out ++ filter (fun y => y ∉ out) (keep_first (omap cand items))
    /\ forall x, x ∈ snd r <-> x ∈ fst r.
Proof.
  intros Hstep.
  induction items as [ | item items IH ]; intros out seen Hinv; simpl.
  - rewrite filter_nil, app_nil_r. done.
  - rewrite Hstep. destruct (cand item) as [ k | ]; [ | now apply IH ].
    simpl. case_bool_decide as Hk.
    + destruct (IH out seen Hinv) as [Hout Hseen]. split; [ | exact Hseen ].
      rewrite Hout. f_equal.
      rewrite filter_cons_False by (rewrite <- Hinv; auto).
      rewrite list_filter_filter. apply list_filter_iff.
      intros y. split; [ | tauto ]. intros Hy. split; [done | ].
      intros ->. apply Hy. now apply Hinv.
    + destruct (IH (out ++ [k]) ({[ k ]} ∪ seen)) as [Hout Hseen].
      { intros x. rewrite elem_of_union, elem_of_singleton, elem_of_app,
          list_elem_of_singleton, Hinv. tauto. }
      split; [ | exact Hseen ].
      rewrite Hout, <- app_assoc. f_equal. simpl.
      rewrite filter_cons_True by (rewrite <- Hinv; auto).
      f_equal. rewrite list_filter_filter. apply list_filter_iff.
      intros y. rewrite elem_of_app, list_elem_of_singleton. tauto.
Qed.

Lemma seen_fold_fresh {A K} `{Countable K} (cand : A -> option K)
  (step : list K * gset K -> A -> list K * gset K) :
  (forall out seen item,
      step (out, seen) item
      = match cand item with
        | None => (out, seen)
        | Some k =>
            if bool_decide (k ∈ seen) then (out, seen)
            else (out ++ [k], {[ k ]} ∪ seen)
        end) ->
  forall items,
    fst (fold_left step items ([], ∅)) = keep_first (omap cand items).
Proof.
  intros Hstep items.
  destruct (seen_fold cand step Hstep items [] ∅) as [Hout _].
  { intros x. rewrite elem_of_empty, elem_of_nil. tauto. }
  rewrite Hout. simpl. apply filter_notin_nil.
Qed.

(** ** [intersect_appids.py] *)

Lemma load_appids_fold (items : list json) :
  fst (fold_left IntersectAppids.load_appids_step items ([], ∅))
  = map str_int (keep_first (omap py_int items)).
Proof.
  rewrite (seen_fold_fresh (fun item => str_int <$> py_int item)).
  - rewrite <- keep_first_map by apply str_int_inj.
    f_equal. induction items as [ | item items IH ]; [reflexivity | ].
    simpl. destruct (py_int item); simpl; [f_equal | ]; exact IH.
  - intros out seen item. unfold IntersectAppids.load_appids_step.
    destruct (py_int item); reflexivity.
Qed.

Lemma load_appids_spec (file : option document) :
  match FetchCommon.load_local_appids file with
  | Ok appids =>
      IntersectAppids.load_appids file
      = Ok (map str_int (keep_first appids))
  | Raise (ValueError _) =>
      IntersectAppids.load_appids file
      = Raise (ValueError "Invalid appids JSON format")
  | Raise e => IntersectAppids.load_appids file = Raise e
  end.
Proof.
  unfold FetchCommon.load_local_appids, IntersectAppids.load_appids.
  destruct file as [ [ | | data ] | ]; try reflexivity.
  match goal with
  | |- context [match ?src with Some _ => _ | None => _ end] =>
      destruct src as [ source | ]
  end; [ | reflexivity ].
  rewrite fold_coerce, load_appids_fold. reflexivity.
Qed.

Lemma load_appids_ints file l :
  IntersectAppids.load_appids file = Ok l ->
  exists ints, l = map str_int ints /\ NoDup ints.
Proof.
  intros Hl. pose proof (load_appids_spec file) as Hspec.
  destruct (FetchCommon.load_local_appids file) as [ appids | e ].
  - rewrite Hl in Hspec. injection Hspec as ->.
    eexists. split; [reflexivity | apply keep_first_NoDup].
  - destruct e; congruence.
Qed.

Lemma NoDup_map_str_int ints : NoDup ints -> NoDup (map str_int ints).
Proof.
  intros Hnd. change (map str_int ints) with (str_int <$> ints).
  apply NoDup_fmap_2; [ | exact Hnd ]. intros a b. apply str_int_inj.
Qed.

(** X16. [load_appids] of [intersect_appids.py] against
    [load_local_appids] of [fetch_common.py]: on every file it returns
    the list that one returns without its repetitions, every identifier
    kept where it first occurs and written as [str] writes it, so no
    string occurs twice; it raises what that one raises (a [ValueError]
    with its own message for a document of neither shape). *)
Theorem load_appids_drops_repetitions (file : option document) :
  match FetchCommon.load_local_appids file with
  | Ok appids =>
      IntersectAppids.load_appids file
      = Ok (map str_int (keep_first appids))
      /\ NoDup (map str_int (keep_first appids))
      /\ forall n, str_int n ∈ map str_int (keep_first appids) <-> n ∈ appids
  | Raise (ValueError _) =>
      IntersectAppids.load_appids file
      = Raise (ValueError "Invalid appids JSON format")
  | Raise e => IntersectAppids.load_appids file = Raise e
  end.
Proof.
  pose proof (load_appids_spec file) as Hspec.
  destruct (FetchCommon.load_local_appids file) as [ appids | e ];
    [ | exact Hspec ].
  split_and!; [exact Hspec | | ].
  - apply NoDup_map_str_int, keep_first_NoDup.
  - intros n. rewrite <- (keep_first_elem appids n). split.
    + intros Hin. apply list_elem_of_In, in_map_iff in Hin as (m & Heq & Hm).
      apply str_int_inj in Heq. subst m. now apply list_elem_of_In.
    + intros Hin. apply list_elem_of_In, in_map, list_elem_of_In. exact Hin.
Qed.

Lemma load_all_ok inputs :
  forall lists,
    IntersectAppids.load_all inputs = Ok lists ->
    Forall2 (fun file l => IntersectAppids.load_appids file = Ok l)
      inputs lists.
Proof.
  induction inputs as [ | file rest IH ]; intros lists; simpl.
  - intros [= <-]. constructor.
  - destruct (IntersectAppids.load_appids file) as [ l | e ] eqn:Hl;
      [ | discriminate ].
    destruct (IntersectAppids.load_all rest) as [ ls | e ]; [ | discriminate ].
    intros [= <-]. constructor; [exact Hl | now apply IH].
Qed.

Lemma load_all_raise inputs e :
  IntersectAppids.load_all inputs = Raise e ->
  exists before file after,
    inputs = before ++ file :: after
    /\ Forall (fun f => exists l, IntersectAppids.load_appids f = Ok l) before
    /\ IntersectAppids.load_appids file = Raise e.
Proof.
  induction inputs as [ | file rest IH ]; simpl; [discriminate | ].
  destruct (IntersectAppids.load_appids file) as [ l | e1 ] eqn:Hl.
  - destruct (IntersectAppids.load_all rest) as [ ls | e2 ]; [discriminate | ].
    intros [= ->]. destruct (IH eq_refl) as (before & f & after & -> & Hb & Hf).
    exists (file :: before), f, after. split_and!; [reflexivity | | exact Hf].
    constructor; [now exists l | exact Hb].
  - intros [= ->]. exists [], file, rest. split_and!; [reflexivity | | exact Hl].
    constructor.
Qed.

Lemma intersection_fold (others : list (list string)) :
  forall (acc : gset string) a,
    a ∈ fold_left (fun acc appid_list => acc ∩ list_to_set appid_list)
          others acc
    <-> a ∈ acc /\ Forall (fun l => a ∈ l) others.
Proof.
  induction others as [ | l others IH ]; intros acc a; simpl.
  - split; [intros Ha; split; [done | constructor] | tauto].
  - rewrite IH, elem_of_intersection, elem_of_list_to_set, Forall_cons. tauto.
Qed.

Lemma intersect_main_ok inputs doc :
  IntersectAppids.main inputs = Ok doc ->
  exists first others,
    IntersectAppids.load_all inputs = Ok (first :: others)
    /\ doc
       = JObj [("appids",
                JArr (map JStr
                        (filter (fun a => a ∈ first
                                          /\ Forall (fun l => a ∈ l) others)
                           first)))].
Proof.
  unfold IntersectAppids.main.
  destruct (length inputs <? 2)%nat eqn:Hlen; [discriminate | ].
  apply Nat.ltb_ge in Hlen.
  destruct (IntersectAppids.load_all inputs) as [ lists | e ] eqn:Hall;
    [ | discriminate ].
  apply load_all_ok, Forall2_length in Hall.
  destruct lists as [ | first others ]; [simpl in Hall; lia | ].
  intros [= <-]. exists first, others. split; [reflexivity | ].
  simpl. do 5 f_equal. apply list_filter_iff. intros a.
  rewrite intersection_fold, elem_of_list_to_set. tauto.
Qed.

(** X17. [main] of [intersect_appids.py]. With fewer than two inputs it
    raises a [ValueError] without reading a file; otherwise it raises
    what [load_appids] raises on the first input it cannot load. When
    every input loads, the list it writes under ["appids"] holds the
    identifiers of the first input that occur in every other input, in
    the order of the first input, none twice. *)
Theorem intersect_main_keeps_common_identifiers
  (inputs : list (option document)) :
  match IntersectAppids.main inputs with
  | Raise e =>
      ((length inputs < 2)%nat
       /\ e = ValueError "Please provide at least 2 input files")
      \/ ((2 <= length inputs)%nat
          /\ exists before file after,
               inputs = before ++ file :: after
               /\ Forall (fun f => exists l,
                              IntersectAppids.load_appids f = Ok l) before
               /\ IntersectAppids.load_appids file = Raise e)
  | Ok doc =>
      exists first others out,
        IntersectAppids.load_all inputs = Ok (first :: others)
        /\ (2 <= length inputs)%nat
        /\ doc = JObj [("appids", JArr (map JStr out))]
        /\ out `sublist_of` first
        /\ NoDup out
        /\ forall a, a ∈ out <-> a ∈ first /\ Forall (fun l => a ∈ l) others
  end.
Proof.
  destruct (IntersectAppids.main inputs) as [ doc | e ] eqn:Hmain.
  - destruct (intersect_main_ok inputs doc Hmain)
      as (first & others & Hall & ->).
    eexists first, others, _.
    split_and!; [exact Hall | | reflexivity | apply sublist_filter | | ].
    + unfold IntersectAppids.main in Hmain.
      destruct (length inputs <? 2)%nat eqn:Hlen; [discriminate | ].
      now apply Nat.ltb_ge in Hlen.
    + apply NoDup_filter.
      apply load_all_ok in Hall. inversion Hall as [ | file l ? ? Hl _ ]; subst.
      destruct (load_appids_ints file first Hl) as (ints & -> & Hnd).
      now apply NoDup_map_str_int.
    + intros a. rewrite list_elem_of_filter. tauto.
  - unfold IntersectAppids.main in Hmain.
    destruct (length inputs <? 2)%nat eqn:Hlen.
    + apply Nat.ltb_lt in Hlen. injection Hmain as <-. left. done.
    + apply Nat.ltb_ge in Hlen. right. split; [exact Hlen | ].
      destruct (IntersectAppids.load_all inputs) as [ lists | e1 ] eqn:Hall;
        [discriminate | ].
      injection Hmain as <-. now apply load_all_raise.
Qed.

Lemma load_back_strings (ints : list Z) :
  omap py_int (map JStr (map str_int ints)) = ints.
Proof.
  induction ints as [ | n ints IH ]; [reflexivity | ]. simpl.
  rewrite int_of_str_str_int. f_equal. exact IH.
Qed.

(** X18. What [main] of [intersect_appids.py] writes is an identifier
    list the fetch scripts read back: [load_local_appids] of
    [fetch_common.py] returns, as integers and in the same order, the
    identifiers written as strings under ["appids"], none twice. *)
Theorem intersect_output_loads_back
  (inputs : list (option document)) (doc : json) :
  IntersectAppids.main inputs = Ok doc ->
  exists appids,
    doc = JObj [("appids", JArr (map JStr (map str_int appids)))]
    /\ FetchCommon.load_local_appids (Some (DocJson doc)) = Ok appids
    /\ NoDup appids.
Proof.
  intros Hmain.
  destruct (intersect_main_ok inputs doc Hmain)
    as (first & others & Hall & ->).
  apply load_all_ok in Hall. inversion Hall as [ | file l ? ? Hl _ ]; subst.
  destruct (load_appids_ints file first Hl) as (ints & -> & Hnd).
  rewrite filter_map.
  eexists. split_and!; [reflexivity | | now apply NoDup_filter].
  unfold FetchCommon.load_local_appids.
  cbn [dict_get String.eqb Ascii.eqb Bool.eqb].
  rewrite fold_coerce, app_nil_l. now rewrite load_back_strings.
Qed.

Lemma intersect_output_loads_back_witness :
  let a := Some (DocJson (JArr [JInt 30; JStr "10"; JInt 20; JInt 10])) in
  let b := Some (DocJson (JObj [("appids", JArr [JInt 10; JNull; JInt 30])])) in
  exists doc,
    IntersectAppids.main [a; b] = Ok doc
    /\ FetchCommon.load_local_appids (Some (DocJson doc)) = Ok [30; 10].
Proof.
  intros a b.
  assert (IntersectAppids.main [a; b]
          = Ok (JObj [("appids", JArr [JStr "30"; JStr "10"])])) as Hmain.
  { vm_compute. reflexivity. }
  destruct (intersect_output_loads_back [a; b] _ Hmain)
    as (appids & _ & Hload & _).
  eexists. split; [exact Hmain | ]. vm_compute. reflexivity.
Defined.

(** ** [fetch_toplist.py] *)

Lemma normalize_appids_fold entries :
  fst (fold_left FetchToplist.normalize_step entries ([], ∅))
  = keep_first (omap FetchToplist.candidate entries).
Proof.
  apply seen_fold_fresh. intros out seen kv.
  unfold FetchToplist.normalize_step.
  destruct (FetchToplist.candidate kv); reflexivity.
Qed.

(** X19. [normalize_appids] of [fetch_toplist.py]: a toplist that is not
    an object gives the empty list; for an object, the result is the
    list of the candidates of its entries (the [appid] of the value
    where [int] accepts it, the key otherwise, nothing when [int]
    accepts neither), in the order of the entries and without
    repetitions, each identifier kept where it first occurs. *)
Theorem normalize_appids_first_occurrences (raw : json) :
  FetchToplist.normalize_appids raw
  = match raw with
    | JObj entries => keep_first (omap FetchToplist.candidate entries)
    | _ => []
    end
  /\ NoDup (FetchToplist.normalize_appids raw)
  /\ forall n,
       n ∈ FetchToplist.normalize_appids raw
       <-> exists entries kv,
             raw = JObj entries /\ kv ∈ entries
             /\ FetchToplist.candidate kv = Some n.
Proof.
  assert (FetchToplist.normalize_appids raw
          = match raw with
            | JObj entries => keep_first (omap FetchToplist.candidate entries)
            | _ => []
            end) as Heq.
  { destruct raw; try reflexivity. apply normalize_appids_fold. }
  rewrite Heq. split_and!; [reflexivity | | ].
  - destruct raw; try constructor. apply keep_first_NoDup.
  - intros n. destruct raw as [ | | | | | | entries ];
      try (rewrite elem_of_nil; split; [done | ];
           intros (entries & kv & Hraw & _); discriminate).
    rewrite keep_first_elem, list_elem_of_omap. split.
    + intros (kv & Hin & Hc). now exists entries, kv.
    + intros (entries' & kv & [= <-] & Hin & Hc). now exists kv.
Qed.

Lemma load_back_ints (ints : list Z) : omap py_int (map JInt ints) = ints.
Proof.
  induction ints as [ | n ints IH ]; [reflexivity | ]. simpl.
  f_equal. exact IH.
Qed.

(** X20. What [main] of [fetch_toplist.py] writes, for a positive
    time-out and a [top_n] that is not negative, is an identifier list
    the fetch scripts read back as it is: [load_local_appids] of
    [fetch_common.py], and that of [fetch_games.py] with no cut, return
    the list written under ["appids"], which is the head of the
    normalized list, at most [top_n] long when [top_n] is positive, and
    names no identifier twice. *)
Theorem toplist_output_loads_back (raw : json) (top_n timeout : Z) :
  0 <= top_n ->
  0 < timeout ->
  exists appids,
    FetchToplist.main_document raw top_n timeout
    = Ok (JObj [("appids", JArr (map JInt appids))])
    /\ appids
       = (if 0 <? top_n
          then take (Z.to_nat top_n) (FetchToplist.normalize_appids raw)
          else FetchToplist.normalize_appids raw)
    /\ FetchCommon.load_local_appids
         (Some (DocJson (JObj [("appids", JArr (map JInt appids))])))
       = Ok appids
    /\ FetchGames.load_local_appids
         (Some (DocJson (JObj [("appids", JArr (map JInt appids))]))) 0
       = Ok appids
    /\ NoDup appids.
Proof.
  intros Hpos Htime. unfold FetchToplist.main_document.
  destruct (timeout <=? 0) eqn:Hbad; [lia | ].
  destruct (top_n <? 0) eqn:Hneg; [lia | ].
  eexists. split_and!; [reflexivity | reflexivity | | | ].
  - unfold FetchCommon.load_local_appids.
    cbn [dict_get String.eqb Ascii.eqb Bool.eqb].
    rewrite fold_coerce, app_nil_l. now rewrite load_back_ints.
  - unfold FetchGames.load_local_appids.
    cbn [dict_get String.eqb Ascii.eqb Bool.eqb].
    rewrite fold_coerce, app_nil_l. now rewrite load_back_ints.
  - assert (NoDup (FetchToplist.normalize_appids raw)) as Hnd.
    { destruct raw; try constructor.
      unfold FetchToplist.normalize_appids.
      rewrite normalize_appids_fold. apply keep_first_NoDup. }
    destruct (0 <? top_n); [ | exact Hnd ].
    eapply sublist_NoDup; [exact Hnd | apply sublist_take].
Qed.

Lemma toplist_output_loads_back_witness :
  let raw := JObj [("730", JObj [("appid", JInt 730)]);
                   ("x", JObj [("appid", JStr "570")]);
                   ("570", JObj [("name", JStr "Dota 2")]);
                   ("440", JNull);
                   ("bad", JNull)] in
  FetchToplist.main_document raw 2 25
  = Ok (JObj [("appids", JArr [JInt 730; JInt 570])])
  /\ FetchToplist.main_document raw 0 25
     = Ok (JObj [("appids", JArr [JInt 730; JInt 570; JInt 440])]).
Proof.
  intros raw.
  destruct (toplist_output_loads_back raw 2 25) as (appids & Hdoc & -> & _);
    [lia | lia | ].
  split; [ | vm_compute; reflexivity ].
  rewrite Hdoc. vm_compute. reflexivity.
Defined.

(** ** [filter_spy_appids.py] *)






(** ** The resume scan, line by line *)

Lemma malformed_line_numbers_elem lines :
  forall first n,
    n ∈ malformed_line_numbers lines first
    <-> exists i l,
          lines !! i = Some l /\ line_malformed l = true
          /\ n = (first + i)%nat.
Proof.
  induction lines as [ | l lines IH ]; intros first n; simpl.
  - rewrite elem_of_nil. split; [done | ].
    intros (i & l & Hl & _). now rewrite lookup_nil in Hl.
  - rewrite elem_of_app, IH. split.
    + intros [Hhead | (i & l' & Hl & Hm & ->)].
      * destruct (line_malformed l) eqn:Hm;
          [ | now apply elem_of_nil in Hhead ].
        apply list_elem_of_singleton in Hhead. subst n.
        exists 0%nat, l. split_and!; [done | done | lia].
      * exists (S i), l'. split_and!; [done | done | lia].
    + intros ([ | i ] & l' & Hl & Hm & ->); simpl in Hl.
      * injection Hl as ->. left. rewrite Hm.
        apply list_elem_of_singleton. lia.
      * right. exists i, l'. split_and!; [done | done | lia].
Qed.

Lemma scan_lines_undecodable lines :
  forall line_no done_appids w,
    forallb decodable lines = false ->
    fst (FetchCommon.scan_lines lines line_no done_appids w)
    = Raise UnicodeDecodeError.
Proof.
  induction lines as [ | l rest IH ]; intros line_no done_appids w;
    simpl; [discriminate | ].
  destruct l as [ | | | obj ]; simpl; try done.
  - apply IH.
  - intros Hrest. unfold mbind, M_bind, bind, log_warn_skip_invalid. simpl.
    now apply IH.
  - intros Hrest.
    destruct obj as [ | | | | | | [ | [key v] [ | kv2 fields ] ] ];
      try now apply IH.
    destruct (int_of_str key); [now apply IH | ].
    unfold mbind, M_bind, bind, log_warn_skip_invalid. simpl.
    now apply IH.
Qed.

(** X22. [load_done_appids_from_jsonl] on an output file whose text
    decodes: it returns the set of the integers read off the keys of the
    lines that are JSON objects with a single key; it warns, with the
    number of the line counted from 1, about every line that is not
    JSON and every single key that [int] refuses, and about no other
    line (a blank line, a JSON value that is not an object and an
    object with no or several keys are passed over in silence); it
    changes nothing else. *)
Theorem resume_scan_on_decodable_file (w : World) (f : jsonl_file) :
  out_file w = Some f ->
  forallb decodable (file_lines f) = true ->
  exists done_appids : gset Z,
    FetchCommon.load_done_appids_from_jsonl w
    = (Ok done_appids,
       with_warnings w (malformed_line_numbers (file_lines f) 1))
    /\ (forall a,
          a ∈ done_appids
          <-> exists key v,
                LJson (JObj [(key, v)]) ∈ file_lines f
                /\ int_of_str key = Some a)
    /\ (forall n,
          n ∈ malformed_line_numbers (file_lines f) 1
          <-> exists l,
                (1 <= n)%nat
                /\ file_lines f !! (n - 1)%nat = Some l
                /\ (l = LInvalid
                    \/ exists key v,
                         l = LJson (JObj [(key, v)])
                         /\ int_of_str key = None)).
Proof.
  intros Hfile Hdec. eexists. split_and!.
  - now apply load_done_decodable.
  - intros a. rewrite elem_of_list_to_set. unfold record_ids.
    rewrite list_elem_of_omap. split.
    + intros (l & Hin & Hid).
      destruct l as [ | | | [ | | | | | | [ | [key v] [ | ? ? ] ] ] ];
        try discriminate.
      now exists key, v.
    + intros (key & v & Hin & Hkey). eexists. split; [exact Hin | exact Hkey].
  - intros n. rewrite malformed_line_numbers_elem. split.
    + intros (i & l & Hl & Hm & ->). exists l.
      replace (1 + i - 1)%nat with i by lia.
      split_and!; [lia | exact Hl | ].
      destruct l as [ | | | [ | | | | | | [ | [key v] [ | ? ? ] ] ] ];
        try discriminate; [now left | ].
      right. exists key, v. split; [reflexivity | ].
      simpl in Hm. now destruct (int_of_str key).
    + intros (l & Hn & Hl & Hshape). exists (n - 1)%nat, l.
      split_and!; [exact Hl | | lia].
      destruct Hshape as [-> | (key & v & -> & Hkey)]; [reflexivity | ].
      simpl. now rewrite Hkey.
Qed.

Lemma resume_scan_on_decodable_file_witness :
  let f := mkFile [LJson (JObj [("10", JObj [])]); LBlank;
                   LJson (JObj [("x", JNull)]); LJson (JArr []);
                   LJson (JObj [(" 20 ", JNull)])]
             (Some LInvalid) in
  exists done_appids : gset Z,
    FetchCommon.load_done_appids_from_jsonl (start_world 0 (Some f))
    = (Ok done_appids, with_warnings (start_world 0 (Some f)) [3; 6]%nat)
    /\ 20 ∈ done_appids.
Proof.
  intros f.
  destruct (resume_scan_on_decodable_file (start_world 0 (Some f)) f)
    as (done_appids & Hrun & Hdone & _); [reflexivity | reflexivity | ].
  exists done_appids. split; [exact Hrun | ].
  apply Hdone. exists " 20 ", JNull. split; [ | reflexivity ].
  apply list_elem_of_In. simpl. do 4 right. left. reflexivity.
Defined.

(** X23. [load_done_appids_from_jsonl] raises exactly when the output
    file exists and holds a line that is not UTF-8, whatever the lines
    around it are, and what it raises is the [UnicodeDecodeError] of the
    iteration over the handle; it sends no request and leaves the file
    as it is. *)
Theorem resume_scan_raises_on_undecodable_line (w : World) :
  let run := FetchCommon.load_done_appids_from_jsonl w in
  (fst run = Raise UnicodeDecodeError
   <-> exists f, out_file w = Some f
                 /\ forallb decodable (file_lines f) = false)
  /\ (forall e, fst run = Raise e -> e = UnicodeDecodeError)
  /\ requested (snd run) = requested w
  /\ out_file (snd run) = out_file w.
Proof.
  unfold FetchCommon.load_done_appids_from_jsonl.
  destruct (out_file w) as [ f | ] eqn:Hfile; simpl.
  - destruct (scan_lines_keeps (file_lines f) 1 ∅ w)
      as (Hreq & Hout & _ & Hexn).
    split_and!; [ | exact Hexn | exact Hreq | congruence ].
    split.
    + intros Hrun. exists f. split; [reflexivity | ].
      destruct (forallb decodable (file_lines f)) eqn:Hdec; [ | reflexivity ].
      rewrite scan_lines_decodable in Hrun by exact Hdec. discriminate.
    + intros (f' & [= <-] & Hdec). now apply scan_lines_undecodable.
  - split_and!; try done. split; [discriminate | ].
    intros (f & Hf & _). discriminate.
Qed.
